(** * scriptUpdater: update check, version comparison and file transitions

    A shallow embedding of [src/scriptUpdater.ts].  Pure code is embedded as
    functions, the asynchronous code as computations of a state-and-exception
    monad over an explicit [World] (key-value storage, clock, network, file
    system, console, and the log of host calls issued so far).

    JavaScript numbers that hold version components are IEEE-754 doubles; the
    embedding keeps the integer-valued doubles, the two infinities and NaN,
    and rounds every integer result to the nearest double. *)

From Stdlib Require Import ZArith Ascii String List Bool Lia.
From stdpp Require Import base option list strings gmap fin_maps pretty.

Local Open Scope string_scope.
Local Open Scope Z_scope.

(** ** JavaScript numbers (the integer-valued part) *)

Module JsNumber.

Inductive Number :=
  | Finite (z : Z)
  | Infinity
  | NegInfinity
  | NaN.

Definition neg (x : Number) : Number :=
  match x with
  | Finite z => Finite (- z)
  | Infinity => NegInfinity
  | NegInfinity => Infinity
  | NaN => NaN
  end.

(** Round a non-negative integer to the nearest double: 53 significant bits,
    ties to the even significand, overflow to [Infinity] from [2 ^ 1024] on.
    (For a numeral of more than 20 significant digits the language lets an
    engine round less exactly; no engine may keep [2 ^ 1024] or more
    finite.) *)
Definition round_magnitude (m : Z) : Number :=
  if m <? 2 ^ 53 then Finite m
  else
    let e := Z.log2 m - 52 in
    let q := m / 2 ^ e in
    let r := m mod 2 ^ e in
    let half := 2 ^ (e - 1) in
    let q' := if r <? half then q
              else if half <? r then q + 1
              else if Z.even q then q else q + 1 in
    if 2 ^ 1024 <=? q' * 2 ^ e then Infinity else Finite (q' * 2 ^ e).

Definition toNumber (z : Z) : Number :=
  if z <? 0 then neg (round_magnitude (- z)) else round_magnitude z.

(** [x - y] *)
Definition sub (x y : Number) : Number :=
  match x, y with
  | NaN, _ | _, NaN => NaN
  | Finite a, Finite b => toNumber (a - b)
  | Finite _, Infinity => NegInfinity
  | Finite _, NegInfinity => Infinity
  | Infinity, Infinity => NaN
  | Infinity, _ => Infinity
  | NegInfinity, NegInfinity => NaN
  | NegInfinity, _ => NegInfinity
  end.

(** [x !== 0] *)
Definition strict_ne_zero (x : Number) : bool :=
  match x with
  | Finite z => negb (z =? 0)
  | _ => true
  end.

(** [x > 0] *)
Definition gt_zero (x : Number) : bool :=
  match x with
  | Finite z => 0 <? z
  | Infinity => true
  | _ => false
  end.

(** [x == y] on numbers: NaN equals nothing, not even itself. *)
Definition loose_eq (x y : Number) : bool :=
  match x, y with
  | Finite a, Finite b => a =? b
  | Infinity, Infinity => true
  | NegInfinity, NegInfinity => true
  | _, _ => false
  end.

Definition is_finite (x : Number) : bool :=
  match x with Finite _ => true | _ => false end.

(** [Number.MAX_SAFE_INTEGER + 1]: below it every integer is a double. *)
Definition safe_bound : Z := 2 ^ 53.

End JsNumber.
Export JsNumber.

(** ** Regular expressions: syntax, meaning and a derivative matcher *)

Module Regex.

Inductive regex :=
  | Never
  | Empty
  | Class (p : ascii -> bool)
  | Seq (r1 r2 : regex)
  | Alt (r1 r2 : regex)
  | Star (r : regex).

(** [r+] *)
Definition Plus (r : regex) : regex := Seq r (Star r).

(** [r{0,n}] *)
Fixpoint UpTo (n : nat) (r : regex) : regex :=
  match n with
  | O => Empty
  | S k => Alt Empty (Seq r (UpTo k r))
  end.

Inductive matches : regex -> string -> Prop :=
  | m_empty : matches Empty ""
  | m_class p c : p c = true -> matches (Class p) (String c "")
  | m_seq r1 r2 s1 s2 :
      matches r1 s1 -> matches r2 s2 -> matches (Seq r1 r2) (s1 +:+ s2)
  | m_alt_l r1 r2 s : matches r1 s -> matches (Alt r1 r2) s
  | m_alt_r r1 r2 s : matches r2 s -> matches (Alt r1 r2) s
  | m_star_nil r : matches (Star r) ""
  | m_star_cons r s1 s2 :
      matches r s1 -> matches (Star r) s2 -> matches (Star r) (s1 +:+ s2).

Fixpoint nullable (r : regex) : bool :=
  match r with
  | Never => false
  | Empty => true
  | Class _ => false
  | Seq r1 r2 => nullable r1 && nullable r2
  | Alt r1 r2 => nullable r1 || nullable r2
  | Star _ => true
  end.

Fixpoint deriv (c : ascii) (r : regex) : regex :=
  match r with
  | Never => Never
  | Empty => Never
  | Class p => if p c then Empty else Never
  | Seq r1 r2 =>
      if nullable r1 then Alt (Seq (deriv c r1) r2) (deriv c r2)
      else Seq (deriv c r1) r2
  | Alt r1 r2 => Alt (deriv c r1) (deriv c r2)
  | Star r1 => Seq (deriv c r1) (Star r1)
  end.

(** Whole-string match, as [^...$] without flags demands. *)
Fixpoint accepts (r : regex) (s : string) : bool :=
  match s with
  | EmptyString => nullable r
  | String c s' => accepts (deriv c r) s'
  end.

End Regex.
Export Regex.

(** ** Data model *)

Record VersionData := {
  version : string;
  date : string;
  notes : string;
  url : string;
}.

Record StorageData := {
  lastChecked : Z;
  versions : list VersionData;
}.

Inductive UpdateCheckInterval :=
  | EveryTime
  | Daily
  | Weekly
  | Monthly.

Definition updateCheckIntervalValues : list UpdateCheckInterval :=
  [EveryTime; Daily; Weekly; Monthly].

(** The host's binary [Data], and the bytes of an [ArrayBuffer]. *)
Definition Data := list Byte.byte.

(** The part of a fetch [Response] the updater reads.  [json] is what
    [response.json()] resolves to ([None]: it rejects); the cast
    [as VersionData[]] is taken at its word.  [bytes] likewise. *)
Record Response := {
  status : Z;
  statusText : string;
  json : option (list VersionData);
  bytes : option (list Byte.byte);
}.

(** [response.ok]: the status is in the range 200-299. *)
Definition ok (r : Response) : bool :=
  (200 <=? status r) && (status r <=? 299).

Module DownloadError.

Record t := {
  url : string;
  response : Response;
}.

(** [`Failed to download the update from ${url}: ${status} ${statusText}`] *)
Definition toString (e : t) : string :=
  "Failed to download the update from " +:+ url e +:+ ": "
    +:+ pretty (status (response e)) +:+ " " +:+ statusText (response e).

End DownloadError.

(** What the code can throw: [new Error(message)], [new DownloadError(..)],
    and whatever a host capability rejects with. *)
Inductive Exn :=
  | Error (message : string)
  | ThrownDownloadError (e : DownloadError.t)
  | HostError (what : string).

(** ** VersionComparator *)

(** [\d] without the unicode flag: the ten ASCII digits. *)
Definition is_digit (c : ascii) : bool :=
  let n := N_of_ascii c in ((48 <=? n) && (n <=? 57))%N.

Definition is_dot (c : ascii) : bool := Ascii.eqb c ".".

(** [/^\d+(?:\.\d+){0,3}$/] *)
Definition version_regex : regex :=
  Seq (Plus (Class is_digit)) (UpTo 3 (Seq (Class is_dot) (Plus (Class is_digit)))).

Definition regex_test (s : string) : bool := accepts version_regex s.

(** [s.split(sep)] for a one-character separator. *)
Fixpoint split (sep : ascii) (s : string) : list string :=
  match s with
  | EmptyString => [""]
  | String c r =>
      if Ascii.eqb c sep then "" :: split sep r
      else match split sep r with
           | h :: t => String c h :: t
           | [] => [String c ""]
           end
  end.

Definition digit_value (c : ascii) : Z := Z.of_N (N_of_ascii c) - 48.

(** The decimal value of the longest prefix of digits, if that prefix is not
    empty. *)
Fixpoint parse_digits (acc : option Z) (s : string) : option Z :=
  match s with
  | EmptyString => acc
  | String c r =>
      if is_digit c
      then parse_digits (Some (10 * default 0 acc + digit_value c)) r
      else acc
  end.

(** [parseInt(s)] with the radix left out, for strings that start with neither
    white space, a sign nor [0x]: the validated components are runs of digits.
    The digits denote an integer; the result is the double nearest to it. *)
Definition parseInt (s : string) : Number :=
  match parse_digits None s with
  | Some n => toNumber n
  | None => NaN
  end.

(** The loop [for (i = 0; i < aParts.length; i++)]; a missing [bParts[i]] is
    [undefined], which turns the difference into NaN. *)
Fixpoint compareParts (aParts bParts : list Number) : Number :=
  match aParts with
  | [] => Finite 0
  | x :: xs =>
      let result := sub x (match bParts with y :: _ => y | [] => NaN end) in
      if strict_ne_zero result then result
      else compareParts xs (tl bParts)
  end.

(** [parts.push(...new Array(n).fill(0))] when [parts] is the shorter one. *)
Definition pad_to (n : nat) (parts : list Number) : list Number :=
  if (length parts <? n)%nat
  then parts ++ replicate (n - length parts)%nat (Finite 0)
  else parts.

Definition dquote : string := String "034"%char "".

(** [`Parameter "p" is not a version: "${s}"`] *)
Definition not_a_version (p s : string) : string :=
  "Parameter " +:+ dquote +:+ p +:+ dquote +:+ " is not a version: "
    +:+ dquote +:+ s +:+ dquote.

Definition compareVersion (a b : string) : Exn + Number :=
  if negb (regex_test a) then inl (Error (not_a_version "a" a))
  else if negb (regex_test b) then inl (Error (not_a_version "b" b))
  else
    let aParts := map parseInt (split "." a) in
    let bParts := map parseInt (split "." b) in
    let aParts' := pad_to (length bParts) aParts in
    let bParts' := pad_to (length aParts') bParts in
    inr (compareParts aParts' bParts').

(** ** Dates: the time-value arithmetic behind [Date]

    Time values are milliseconds since the epoch.  The clock of the host
    stays far inside the range of valid dates, so [TimeClip] never yields an
    invalid date and is left out. *)

Module JsDate.

Definition msPerDay : Z := 86400000.
Definition msPerHour : Z := 3600000.
Definition msPerMinute : Z := 60000.
Definition msPerSecond : Z := 1000.

Definition Day (t : Z) : Z := t / msPerDay.
Definition TimeWithinDay (t : Z) : Z := t mod msPerDay.

Definition DaysInYear (y : Z) : Z :=
  if negb (y mod 4 =? 0) then 365
  else if negb (y mod 100 =? 0) then 366
  else if negb (y mod 400 =? 0) then 365
  else 366.

Definition DayFromYear (y : Z) : Z :=
  365 * (y - 1970) + (y - 1969) / 4 - (y - 1901) / 100 + (y - 1601) / 400.

Definition TimeFromYear (y : Z) : Z := msPerDay * DayFromYear y.

(** The largest [y] with [TimeFromYear y <= t]: an estimate from the mean
    length of a year, corrected by at most one year. *)
Definition YearFromTime (t : Z) : Z :=
  let d := Day t in
  let y := 1970 + (400 * d) / 146097 in
  if DayFromYear (y + 1) <=? d then y + 1
  else if DayFromYear y <=? d then y
  else y - 1.

Definition InLeapYear (t : Z) : Z :=
  if DaysInYear (YearFromTime t) =? 366 then 1 else 0.

Definition DayWithinYear (t : Z) : Z := Day t - DayFromYear (YearFromTime t).

(** The day within the year on which month [m] (0-11) starts. *)
Definition month_start (m leap : Z) : Z :=
  match m with
  | 0 => 0
  | 1 => 31
  | 2 => 59 + leap
  | 3 => 90 + leap
  | 4 => 120 + leap
  | 5 => 151 + leap
  | 6 => 181 + leap
  | 7 => 212 + leap
  | 8 => 243 + leap
  | 9 => 273 + leap
  | 10 => 304 + leap
  | _ => 334 + leap
  end.

Definition MonthFromTime (t : Z) : Z :=
  let d := DayWithinYear t in
  let leap := InLeapYear t in
  if d <? 31 then 0
  else if d <? 59 + leap then 1
  else if d <? 90 + leap then 2
  else if d <? 120 + leap then 3
  else if d <? 151 + leap then 4
  else if d <? 181 + leap then 5
  else if d <? 212 + leap then 6
  else if d <? 243 + leap then 7
  else if d <? 273 + leap then 8
  else if d <? 304 + leap then 9
  else if d <? 334 + leap then 10
  else 11.

Definition DateFromTime (t : Z) : Z :=
  DayWithinYear t - month_start (MonthFromTime t) (InLeapYear t) + 1.

Definition MakeTime (hour min sec ms : Z) : Z :=
  hour * msPerHour + min * msPerMinute + sec * msPerSecond + ms.

(** The day number of the first of month [mn] of year [ym], then [date - 1]
    days further. *)
Definition MakeDay (year month date : Z) : Z :=
  let ym := year + month / 12 in
  let mn := month mod 12 in
  let leap := if DaysInYear ym =? 366 then 1 else 0 in
  DayFromYear ym + month_start mn leap + date - 1.

Definition MakeDate (day time : Z) : Z := day * msPerDay + time.

Section LocalTime.

(** The offset of local time, in milliseconds, at a time value given in UTC
    ([true]) or in local time ([false]); the host's time zone decides it. *)
Variable LocalTZA : Z -> bool -> Z.

Definition LocalTime (t : Z) : Z := t + LocalTZA t true.
Definition UTC (t : Z) : Z := t - LocalTZA t false.

Definition getTime (d : Z) : Z := d.
Definition getDate (d : Z) : Z := DateFromTime (LocalTime d).
Definition getMonth (d : Z) : Z := MonthFromTime (LocalTime d).

(** The setters return the new time value of the date object. *)
Definition setDate (d dt : Z) : Z :=
  let t := LocalTime d in
  UTC (MakeDate (MakeDay (YearFromTime t) (MonthFromTime t) dt) (TimeWithinDay t)).

Definition setMonth (d m : Z) : Z :=
  let t := LocalTime d in
  UTC (MakeDate (MakeDay (YearFromTime t) m (DateFromTime t)) (TimeWithinDay t)).

Definition setHours (d hour min sec ms : Z) : Z :=
  let t := LocalTime d in
  UTC (MakeDate (Day t) (MakeTime hour min sec ms)).

End LocalTime.

End JsDate.
Export JsDate.

(** ** The world of the host and the monad of asynchronous code *)

(** A path of the file system holds a file or a directory; a directory is
    its recursive listing, relative path to content. *)
Inductive Node :=
  | File (data : Data)
  | Directory (entries : gmap string Data).

Inductive FetchResult :=
  | NetworkFailure (reason : string)
  | Responded (r : Response).

(** The calls to the host that change something or reach the network, in
    the order they were issued. *)
Inductive HostCall :=
  | CallFetch (url : string)
  | CallStorageSet (key : string) (value : StorageData)
  | CallWriteAsData (path : string)
  | CallCreateDirectory (path : string)
  | CallUnzip (src dst : string)
  | CallRename (src dst : string)
  | CallRemove (path : string).

Record World := {
  storage : gmap string StorageData;
  storage_writable : bool;
  clock : nat -> Z;
  clock_reads : nat;
  network : string -> FetchResult;
  files : gmap string Node;
  console : list string;
  calls : list HostCall;
}.

Definition M (A : Type) : Type := World -> (Exn + A) * World.

#[export] Instance M_ret : MRet M := fun A (a : A) w => (inr a, w).

#[export] Instance M_bind : MBind M := fun A B (f : A -> M B) (m : M A) w =>
  match m w with
  | (inr a, w') => f a w'
  | (inl e, w') => (inl e, w')
  end.

Definition throw {A} (e : Exn) : M A := fun w => (inl e, w).

Definition lift {A} (r : Exn + A) : M A := fun w => (r, w).

Definition record_call (c : HostCall) : M unit := fun w =>
  (inr tt,
   {| storage := storage w; storage_writable := storage_writable w;
      clock := clock w; clock_reads := clock_reads w; network := network w;
      files := files w; console := console w; calls := calls w ++ [c] |}).

Definition get_files : M (gmap string Node) := fun w => (inr (files w), w).

Definition put_files (f : gmap string Node) : M unit := fun w =>
  (inr tt,
   {| storage := storage w; storage_writable := storage_writable w;
      clock := clock w; clock_reads := clock_reads w; network := network w;
      files := f; console := console w; calls := calls w |}).

(** [new Date()]: the next reading of the clock. *)
Definition new_Date : M Z := fun w =>
  (inr (clock w (clock_reads w)),
   {| storage := storage w; storage_writable := storage_writable w;
      clock := clock w; clock_reads := S (clock_reads w); network := network w;
      files := files w; console := console w; calls := calls w |}).

Definition console_log (line : string) : M unit := fun w =>
  (inr tt,
   {| storage := storage w; storage_writable := storage_writable w;
      clock := clock w; clock_reads := clock_reads w; network := network w;
      files := files w; console := console w ++ [line]; calls := calls w |}).

(** [Storage.get(key)] *)
Definition Storage_get (key : string) : M (option StorageData) := fun w =>
  (inr (storage w !! key), w).

Definition storage_write (key : string) (value : StorageData) : M bool :=
  fun w =>
    if storage_writable w
    then (inr true,
          {| storage := <[key := value]> (storage w);
             storage_writable := storage_writable w;
             clock := clock w; clock_reads := clock_reads w;
             network := network w; files := files w; console := console w;
             calls := calls w |})
    else (inr false, w).

(** [Storage.set(key, value)]: reports whether the value was stored. *)
Definition Storage_set (key : string) (value : StorageData) : M bool :=
  record_call (CallStorageSet key value) ;; storage_write key value.

Definition network_reply (url : string) : M Response := fun w =>
  match network w url with
  | NetworkFailure reason => (inl (HostError reason), w)
  | Responded r => (inr r, w)
  end.

(** [fetch(url)]: rejects when the request itself fails. *)
Definition fetch (url : string) : M Response :=
  record_call (CallFetch url) ;; network_reply url.

Definition Response_json (r : Response) : M (list VersionData) :=
  match json r with
  | Some v => mret v
  | None => throw (HostError "json")
  end.

Definition Response_bytes (r : Response) : M (list Byte.byte) :=
  match bytes r with
  | Some b => mret b
  | None => throw (HostError "bytes")
  end.

(** *** FileManager

    The directories the updater works on are taken as unrelated paths (none
    lies inside another).  A call fails without changing anything when its
    source is missing or its target is in the way. *)

Module FileManager.

Definition existsSync (path : string) : M bool :=
  f ← get_files; mret (bool_decide (is_Some (f !! path))).

Definition exists_ (path : string) : M bool := existsSync path.

Definition writeAsData (path : string) (data : Data) : M unit :=
  record_call (CallWriteAsData path) ;;
  f ← get_files;
  match f !! path with
  | Some (Directory _) => throw (HostError "writeAsData")
  | _ => put_files (<[path := File data]> f)
  end.

(** [createDirectory(path, true)] *)
Definition createDirectory (path : string) : M unit :=
  record_call (CallCreateDirectory path) ;;
  f ← get_files;
  match f !! path with
  | None => put_files (<[path := Directory ∅]> f)
  | Some (Directory _) => mret tt
  | Some (File _) => throw (HostError "createDirectory")
  end.

Section Unzip.

(** The archive extractor: from the archive and the present content of the
    target directory to its content afterwards, or a failure. *)
Variable extract : Data -> gmap string Data -> option (gmap string Data).

Definition unzip (src dst : string) : M unit :=
  record_call (CallUnzip src dst) ;;
  f ← get_files;
  match f !! src, f !! dst with
  | Some (File archive), Some (Directory entries) =>
      match extract archive entries with
      | Some entries' => put_files (<[dst := Directory entries']> f)
      | None => throw (HostError "unzip")
      end
  | _, _ => throw (HostError "unzip")
  end.

End Unzip.

(** [readDirectory(path, true)] *)
Definition readDirectory (path : string) : M (list string) :=
  f ← get_files;
  match f !! path with
  | Some (Directory entries) => mret (elements (dom entries))
  | _ => throw (HostError "readDirectory")
  end.

Definition rename (src dst : string) : M unit :=
  record_call (CallRename src dst) ;;
  f ← get_files;
  match f !! src, f !! dst with
  | Some node, None => put_files (<[dst := node]> (delete src f))
  | _, _ => throw (HostError "rename")
  end.

Definition remove (path : string) : M unit :=
  record_call (CallRemove path) ;;
  f ← get_files;
  match f !! path with
  | Some _ => put_files (delete path f)
  | None => throw (HostError "remove")
  end.

End FileManager.

(** [Path.join(a, b)] for a directory [a] written without a trailing slash. *)
Definition Path_join (a b : string) : string := a +:+ "/" +:+ b.

(** [array.filter(f)] for a callback that may throw: the elements are
    visited in order and the first exception ends the visit. *)
Fixpoint filterM {A} (f : A -> M bool) (l : list A) : M (list A) :=
  match l with
  | [] => mret []
  | x :: xs =>
      keep ← f x;
      rest ← filterM f xs;
      mret (if (keep : bool) then x :: rest else rest)
  end.

(** ** The updater *)

Section ScriptUpdater.

(** The identity of the script and the capabilities of the host. *)
Variable Script_name : string.
Variable Script_directory : string.
Variable temporaryDirectory : string.
Variable LocalTZA : Z -> bool -> Z.
Variable Data_fromArrayBuffer : list Byte.byte -> option Data.
Variable extract : Data -> gmap string Data -> option (gmap string Data).

Definition storageKey : string := "scriptUpdater." +:+ Script_name.
Definition unzippedFolder : string := Path_join temporaryDirectory "scriptUpdate".
Definition scriptBackup : string := Script_directory +:+ "_updateBackup".

Definition getIntervalDate (adjust : option (Z -> Z)) : M Z :=
  d ← new_Date;
  let d := match adjust with Some f => f d | None => d end in
  mret (setHours LocalTZA d 0 0 0 0).

(** [d => d.setDate(d.getDate() - 7)] *)
Definition adjust_weekly (d : Z) : Z := setDate LocalTZA d (getDate LocalTZA d - 7).

(** [d => d.setMonth(d.getMonth() - 1)] *)
Definition adjust_monthly (d : Z) : Z := setMonth LocalTZA d (getMonth LocalTZA d - 1).

(** The record [intervalDates]: all four dates are built, in this order. *)
Definition intervalDates : M (UpdateCheckInterval -> Z) :=
  everyTime ← new_Date;
  daily ← getIntervalDate None;
  weekly ← getIntervalDate (Some adjust_weekly);
  monthly ← getIntervalDate (Some adjust_monthly);
  mret (fun interval =>
          match interval with
          | EveryTime => everyTime
          | Daily => daily
          | Weekly => weekly
          | Monthly => monthly
          end).

Definition defaultCache : StorageData := {| lastChecked := 0; versions := [] |}.

(** The body of [if (cached.lastChecked <= ...)]: the refreshed cache. *)
Definition refresh (url : string) : M StorageData :=
  response ← fetch url;
  vs ← Response_json response;
  now ← new_Date;
  let cached := {| lastChecked := now; versions := vs |} in
  stored ← Storage_set storageKey cached;
  (if negb (stored : bool)
   then console_log "WARNING: could not write update data to Storage"
   else mret tt) ;;
  mret cached.

Definition is_newer (currentVersion : string) (v : VersionData) : M bool :=
  r ← lift (compareVersion (version v) currentVersion);
  mret (gt_zero (r : Number)).

(** [Storage.get<StorageData>(storageKey) ?? { lastChecked: 0, versions: [] }] *)
Definition loadCache : M StorageData :=
  stored ← Storage_get storageKey;
  mret (default defaultCache stored).

(** Lines 34-54: the variable [cached] at the moment the filter starts. *)
Definition cached_after_check (url : string) (interval : UpdateCheckInterval)
    : M StorageData :=
  cached ← loadCache;
  dates ← intervalDates;
  if lastChecked cached <=? getTime (dates interval)
  then refresh url
  else mret cached.

Definition updateAvailable (url : string) (interval : UpdateCheckInterval)
    (currentVersion : string) : M (list VersionData) :=
  cached ← cached_after_check url interval;
  filterM (is_newer currentVersion) (versions cached).

Definition getCache : M (option StorageData) := Storage_get storageKey.

Definition downloadUpdate (url : string) : M (list string) :=
  let path := Path_join temporaryDirectory "scriptUpdate.zip" in
  response ← fetch url;
  if negb (ok (response : Response))
  then throw (ThrownDownloadError
                {| DownloadError.url := url; DownloadError.response := response |})
  else
    buffer ← Response_bytes response;
    match Data_fromArrayBuffer buffer with
    | None => throw (Error "Could not convert from ArrayBuffer to data")
    | Some data =>
        FileManager.writeAsData path data ;;
        present ← FileManager.existsSync unzippedFolder;
        (if negb (present : bool)
         then FileManager.createDirectory unzippedFolder
         else mret tt) ;;
        FileManager.unzip extract path unzippedFolder ;;
        FileManager.readDirectory unzippedFolder
    end.

Definition installDownloadedScript : M unit :=
  FileManager.rename Script_directory scriptBackup ;;
  FileManager.rename unzippedFolder Script_directory.

Definition cleanFiles : M unit :=
  backup ← FileManager.exists_ scriptBackup;
  (if (backup : bool) then FileManager.remove scriptBackup else mret tt) ;;
  staging ← FileManager.exists_ unzippedFolder;
  (if (staging : bool) then FileManager.remove unzippedFolder else mret tt).

End ScriptUpdater.

(** ** The vocabulary of the specification: versions *)

(** A component: a non-empty run of digits. *)
Definition is_component (c : string) : bool :=
  negb (String.eqb c "") && forallb is_digit (list_ascii_of_string c).

(** [parts.join(sep)] *)
Fixpoint join (sep : string) (parts : list string) : string :=
  match parts with
  | [] => ""
  | [p] => p
  | p :: rest => p +:+ sep +:+ join sep rest
  end.

(** The tail of a joined version: every further component after its dot. *)
Fixpoint dotted (cs : list string) : string :=
  match cs with
  | [] => ""
  | c :: rest => "." +:+ c +:+ dotted rest
  end.

(** The grammar of versions: one to four components separated by dots. *)
Definition version_grammar (s : string) : Prop :=
  exists cs : list string,
    (1 <= length cs <= 4)%nat /\
    Forall (fun c => is_component c = true) cs /\
    s = join "." cs.

(** The number a run of digits denotes. *)
Definition decimal_value (c : string) : Z :=
  fold_left (fun acc d => 10 * acc + digit_value d) (list_ascii_of_string c) 0.

(** The number the code reads from a component. *)
Definition component_number (c : string) : Number := toNumber (decimal_value c).

(** The comparison the specification describes, on exact integers: pad the
    shorter list with zeros, then take the first non-zero difference. *)
Definition pad_zeros (n : nat) (xs : list Z) : list Z :=
  xs ++ replicate (n - length xs)%nat 0.

Fixpoint first_nonzero (ds : list Z) : Z :=
  match ds with
  | [] => 0
  | d :: rest => if d =? 0 then first_nonzero rest else d
  end.

Definition spec_compare (xs ys : list Z) : Z :=
  let n := Nat.max (length xs) (length ys) in
  first_nonzero (zip_with Z.sub (pad_zeros n xs) (pad_zeros n ys)).

(** The components of a version are all below [safe_bound]. *)
Definition safe_components (cs : list string) : Prop :=
  Forall (fun c => decimal_value c < safe_bound) cs.

(** The components of a version all fit a finite double. *)
Definition finite_components (s : string) : Prop :=
  Forall (fun c => is_finite (parseInt c) = true) (split "." s).

(** The versions of a list that compare greater than [currentVersion]. *)
Definition newer_than (currentVersion : string) (vs : list VersionData)
    : list VersionData :=
  List.filter (fun v => match compareVersion (version v) currentVersion with
                        | inr r => gt_zero r
                        | inl _ => false
                        end) vs.

(** The filter of the check as a pure function: the first version that fails
    validation ends it. *)
Fixpoint newer_result (currentVersion : string) (vs : list VersionData)
    : Exn + list VersionData :=
  match vs with
  | [] => inr []
  | v :: rest =>
      match compareVersion (version v) currentVersion with
      | inl e => inl e
      | inr r =>
          match newer_result currentVersion rest with
          | inl e => inl e
          | inr l => inr (if gt_zero r then v :: l else l)
          end
      end
  end.

(** ** The vocabulary of the specification: cutoffs *)

(** The length of month [m] (0-11). *)
Definition days_in_month (m leap : Z) : Z :=
  match m with
  | 1 => 28 + leap
  | 3 | 5 | 8 | 10 => 30
  | _ => 31
  end.

(** The length of the calendar month before the month of [t]. *)
Definition days_in_previous_month (t : Z) : Z :=
  let m := MonthFromTime t in
  if m =? 0 then 31 else days_in_month (m - 1) (InLeapYear t).

Section Cutoff.

Variable LocalTZA : Z -> bool -> Z.

(** The moment of local midnight, 00:00:00.000, on the local day of [t]. *)
Definition start_of_day (t : Z) : Z :=
  UTC LocalTZA (Day (LocalTime LocalTZA t) * msPerDay).

(** The moment [k] days before [t] on the local calendar, at the same local
    time of day. *)
Definition days_before (k t : Z) : Z :=
  UTC LocalTZA (LocalTime LocalTZA t - k * msPerDay).

(** The cutoff of the specification, from the reading [now] of the clock
    that belongs to the interval. *)
Definition cutoff (interval : UpdateCheckInterval) (now : Z) : Z :=
  match interval with
  | EveryTime => now
  | Daily => start_of_day now
  | Weekly => start_of_day (days_before 7 now)
  | Monthly =>
      start_of_day
        (days_before (days_in_previous_month (LocalTime LocalTZA now)) now)
  end.

End Cutoff.

(** Which reading of the clock, counted from the start of a check, the date
    of an interval is built from. *)
Definition reading_index (interval : UpdateCheckInterval) : nat :=
  match interval with
  | EveryTime => 0
  | Daily => 1
  | Weekly => 2
  | Monthly => 3
  end.

Section IntervalDate.

Variable LocalTZA : Z -> bool -> Z.

(** The entry of [intervalDates] for an interval, from its reading [now]
    of the clock. *)
Definition interval_date (interval : UpdateCheckInterval) (now : Z) : Z :=
  match interval with
  | EveryTime => now
  | Daily => setHours LocalTZA now 0 0 0 0
  | Weekly => setHours LocalTZA (adjust_weekly LocalTZA now) 0 0 0 0
  | Monthly => setHours LocalTZA (adjust_monthly LocalTZA now) 0 0 0 0
  end.

End IntervalDate.

(** ** Worlds, step by step *)

(** The world after [k] more readings of the clock. *)
Definition advance_clock (k : nat) (w : World) : World :=
  {| storage := storage w; storage_writable := storage_writable w;
     clock := clock w; clock_reads := (k + clock_reads w)%nat;
     network := network w; files := files w; console := console w;
     calls := calls w |}.

(** The world with one more host call on record. *)
Definition with_call (c : HostCall) (w : World) : World :=
  {| storage := storage w; storage_writable := storage_writable w;
     clock := clock w; clock_reads := clock_reads w; network := network w;
     files := files w; console := console w; calls := calls w ++ [c] |}.

(** The world with another content of the key-value storage. *)
Definition with_storage (s : gmap string StorageData) (w : World) : World :=
  {| storage := s; storage_writable := storage_writable w;
     clock := clock w; clock_reads := clock_reads w; network := network w;
     files := files w; console := console w; calls := calls w |}.

(** The world with another file system. *)
Definition with_files (f : gmap string Node) (w : World) : World :=
  {| storage := storage w; storage_writable := storage_writable w;
     clock := clock w; clock_reads := clock_reads w; network := network w;
     files := f; console := console w; calls := calls w |}.

(** The world a successful refresh leaves: one reading of the clock, the
    fetch and the write on record, the cache stored if the storage takes it,
    a warning on the console if not. *)
Definition refreshed_world (key url : string) (c : StorageData) (w : World)
    : World :=
  {| storage := if storage_writable w then <[key := c]> (storage w)
                else storage w;
     storage_writable := storage_writable w;
     clock := clock w; clock_reads := S (clock_reads w); network := network w;
     files := files w;
     console := if storage_writable w then console w
                else console w ++ ["WARNING: could not write update data to Storage"];
     calls := (calls w ++ [CallFetch url]) ++ [CallStorageSet key c] |}.

(** ** Hoare triples and the frame of a download *)


Section Unpack.

Variable temporaryDirectory : string.
Variable extract : Data -> gmap string Data -> option (gmap string Data).

(** The file-system part of [downloadUpdate], lines 86-92, for the converted
    [data]. *)
Definition unpack (data : Data) : M (list string) :=
  let path := Path_join temporaryDirectory "scriptUpdate.zip" in
  FileManager.writeAsData path data ;;
  present ← FileManager.existsSync (unzippedFolder temporaryDirectory);
  (if negb (present : bool)
   then FileManager.createDirectory (unzippedFolder temporaryDirectory)
   else mret tt) ;;
  FileManager.unzip extract path (unzippedFolder temporaryDirectory) ;;
  FileManager.readDirectory (unzippedFolder temporaryDirectory).

End Unpack.


(** ** Concrete inputs for the examples *)

(** A version string with one component of 310 digits. *)
Definition huge_version : string :=
  String "1" (string_of_list_ascii (repeat "0"%char 309)).

(** A version string with one component of 309 nines. *)
Definition nines_version : string := string_of_list_ascii (repeat "9"%char 309).

Definition release (v : string) : VersionData :=
  {| version := v; date := "2024-01-01"; notes := "";
     url := "https://example.org/" +:+ v +:+ ".zip" |}.

Definition manifest_url : string := "https://example.org/versions.json".

(** 2024-11-03 00:00:00.000 UTC *)
Definition midnight : Z := 1730592000000.

(** Local time is UTC. *)
Definition utc : Z -> bool -> Z := fun _ _ => 0.

(** Local time is one hour ahead of UTC. *)
Definition utc_plus_1 : Z -> bool -> Z := fun _ _ => 3600000.

Definition manifest_ok : Response :=
  {| status := 200; statusText := "OK";
     json := Some [release "1.0"; release "2.0"; release "1.5"];
     bytes := None |}.

Definition not_found : Response :=
  {| status := 404; statusText := "Not Found";
     json := Some [release "9.9"]; bytes := None |}.

Definition archive_ok : Response :=
  {| status := 200; statusText := "OK"; json := None;
     bytes := Some [Byte.x03] |}.

(** The script [app]: its cache record as given, a clock that stands still,
    a network that gives every request the same answer, no files. *)
Definition still_world (cache : option StorageData) (now : Z)
    (reply : FetchResult) : World :=
  {| storage := match cache with
                | Some c => {[ "scriptUpdater.app" := c ]}
                | None => ∅
                end;
     storage_writable := true;
     clock := fun _ => now;
     clock_reads := 0;
     network := fun _ => reply;
     files := ∅;
     console := [];
     calls := [] |}.

(** A cache written at the very moment of the check. *)
Definition cache_of_now (now : Z) (vs : list VersionData) : World :=
  still_world (Some {| lastChecked := now; versions := vs |}) now
              (Responded manifest_ok).

(** The live directory of [app] with one file, and a staging directory an
    earlier download left behind. *)
Definition installed_files : gmap string Node :=
  {[ "/scripts/app" := Directory {[ "index.tsx" := [Byte.x01] ]};
     "/tmp/scriptUpdate" := Directory {[ "old.tsx" := [Byte.x02] ]} ]}.

Definition installed_world (reply : FetchResult) : World :=
  with_files installed_files (still_world None midnight reply).

(** An extractor that unpacks one file named [index.tsx] holding the bytes
    of the archive, on top of what is there. *)
Definition unpack_index (archive : Data) (entries : gmap string Data)
    : option (gmap string Data) :=
  Some (<["index.tsx" := archive]> entries).


(** ** Further vocabulary: versions as numbers *)

(** A version inside the grammar whose components are all below
    [safe_bound]. *)
Definition safe_version (s : string) : Prop :=
  version_grammar s /\ safe_components (split "." s).

(** The four numbers a version denotes, missing components counting as
    zero. *)
Definition version_numbers (s : string) : list Z :=
  pad_zeros 4 (map decimal_value (split "." s)).

(** The lexicographic order on lists of numbers of the same length. *)
Fixpoint lex_lt (xs ys : list Z) : Prop :=
  match xs, ys with
  | x :: xs', y :: ys' => x < y \/ (x = y /\ lex_lt xs' ys')
  | _, _ => False
  end.

(** [compareVersion a b] returns a negative number. *)
Definition compares_less (a b : string) : Prop :=
  exists d, compareVersion a b = inr (Finite d) /\ d < 0.

(** ** Further worlds *)

(** The network is down. *)
Definition offline_world : World :=
  still_world None midnight (NetworkFailure "offline").

(** The world with a storage that takes no writes. *)
Definition read_only (w : World) : World :=
  {| storage := storage w; storage_writable := false;
     clock := clock w; clock_reads := clock_reads w; network := network w;
     files := files w; console := console w; calls := calls w |}.

(** A host whose conversion from an array buffer fails. *)
Definition no_conversion (buffer : list Byte.byte) : option Data := None.

(** The script is installed, and nothing is staged. *)
Definition fresh_files : gmap string Node :=
  {[ "/scripts/app" := Directory {[ "index.tsx" := [Byte.x01] ]} ]}.

Definition fresh_world (reply : FetchResult) : World :=
  with_files fresh_files (still_world None midnight reply).

(** ** The update cycle *)

(** The three exported steps of an update, in the order they are meant for. *)
Definition update_cycle (Script_directory temporaryDirectory : string)
    (Data_fromArrayBuffer : list Byte.byte -> option Data)
    (extract : Data -> gmap string Data -> option (gmap string Data))
    (url : string) : M unit :=
  downloadUpdate temporaryDirectory Data_fromArrayBuffer extract url ;;
  installDownloadedScript Script_directory temporaryDirectory ;;
  cleanFiles Script_directory temporaryDirectory.

(** The calls [cleanFiles] issues in a file system [f]. *)
Definition clean_calls (backup staging : string) (f : gmap string Node)
    : list HostCall :=
  ((if bool_decide (is_Some (f !! backup)) then [CallRemove backup] else []) ++
   (if bool_decide (is_Some (delete backup f !! staging))
    then [CallRemove staging] else []))%list.

(** ** The view

    [MainView] of the demo script: five pieces of state and three handlers
    that call the updater.  A handler runs over the host world, the state of
    the view and the console of the script. *)

Module MainView.

Definition versionsUrl : string := "".

(** The values of the [useState] hooks. *)
Record State := {
  versions_shown : list VersionData;
  interval_chosen : UpdateCheckInterval;
  version_entered : string;
  cache_shown : option StorageData;
  loading : bool;
}.

Definition initial : State :=
  {| versions_shown := []; interval_chosen := EveryTime;
     version_entered := "0.1"; cache_shown := None; loading := false |}.

(** What a [catch] can receive: an exception of the updater or of the host,
    or the [TypeError] of reading a property of [undefined]. *)
Inductive Caught :=
  | TypeError
  | Thrown (e : Exn).

Record Ui := {
  host : World;
  view : State;
  reported : list Caught;
  presented : nat;
}.

Definition V (A : Type) : Type := Ui -> (Caught + A) * Ui.

#[export] Instance V_ret : MRet V := fun A (a : A) u => (inr a, u).

#[export] Instance V_bind : MBind V := fun A B (f : A -> V B) (m : V A) u =>
  match m u with
  | (inr a, u') => f a u'
  | (inl e, u') => (inl e, u')
  end.

Definition raise {A} (c : Caught) : V A := fun u => (inl c, u).

(** A call of the updater: it runs over the host world. *)
Definition call {A} (m : M A) : V A := fun u =>
  let '(r, w) := m (host u) in
  (match r with inl e => inl (Thrown e) | inr a => inr a end,
   {| host := w; view := view u; reported := reported u;
      presented := presented u |}).

Definition set_view (f : State -> State) : V unit := fun u =>
  (inr tt,
   {| host := host u; view := f (view u); reported := reported u;
      presented := presented u |}).

Definition setVersions (vs : list VersionData) : V unit :=
  set_view (fun s =>
    {| versions_shown := vs; interval_chosen := interval_chosen s;
       version_entered := version_entered s; cache_shown := cache_shown s;
       loading := loading s |}).

Definition setCache (c : option StorageData) : V unit :=
  set_view (fun s =>
    {| versions_shown := versions_shown s; interval_chosen := interval_chosen s;
       version_entered := version_entered s; cache_shown := c;
       loading := loading s |}).

Definition setLoading (b : bool) : V unit :=
  set_view (fun s =>
    {| versions_shown := versions_shown s; interval_chosen := interval_chosen s;
       version_entered := version_entered s; cache_shown := cache_shown s;
       loading := b |}).

(** [console.error(error)] *)
Definition console_error (c : Caught) : V unit := fun u =>
  (inr tt,
   {| host := host u; view := view u; reported := reported u ++ [c];
      presented := presented u |}).

(** [console.present()] *)
Definition console_present : V unit := fun u =>
  (inr tt,
   {| host := host u; view := view u; reported := reported u;
      presented := S (presented u) |}).

(** [try { body } catch (error) { handler(error) }] *)
Definition try_catch (body : V unit) (handler : Caught -> V unit) : V unit :=
  fun u =>
    match body u with
    | (inr a, u') => (inr a, u')
    | (inl c, u') => handler c u'
    end.

(** The [catch] block the three handlers share. *)
Definition report (error : Caught) : V unit :=
  console_error error ;; console_present.

(** [versions[versions.length - 1].url]: the element is [undefined] for an
    empty array, and reading its [url] throws. *)
Definition last_url (versions : list VersionData) : V string :=
  match last versions with
  | Some v => mret (url v)
  | None => raise TypeError
  end.

Section Handlers.

Variable Script_name : string.
Variable Script_directory : string.
Variable temporaryDirectory : string.
Variable LocalTZA : Z -> bool -> Z.
Variable Data_fromArrayBuffer : list Byte.byte -> option Data.
Variable extract : Data -> gmap string Data -> option (gmap string Data).

(** The callback closes over [interval] and [version]. *)
Definition checkVersion (interval : UpdateCheckInterval) (version : string)
    : V unit :=
  setLoading true ;;
  try_catch
    (newer ← call (updateAvailable Script_name LocalTZA versionsUrl interval version);
     setVersions newer)
    report ;;
  cached ← call (getCache Script_name);
  setCache cached ;;
  setLoading false.

(** The callback closes over [versions]. *)
Definition download (versions : list VersionData) : V unit :=
  setLoading true ;;
  try_catch
    (target ← last_url versions;
     _ ← call (downloadUpdate temporaryDirectory Data_fromArrayBuffer extract
                 (target : string));
     mret tt)
    report ;;
  setLoading false.

Definition clean : V unit :=
  setLoading true ;;
  try_catch (call (cleanFiles Script_directory temporaryDirectory)) report ;;
  setLoading false.

End Handlers.

(** The view just opened over the world [w]. *)
Definition opened (w : World) : Ui :=
  {| host := w; view := initial; reported := []; presented := 0 |}.

End MainView.

(** * Theorems *)

(** ** Strings *)

Lemma append_nil_l (s : string) : "" +:+ s = s.
Proof. reflexivity. Qed.

Lemma append_cons (c : ascii) (s t : string) :
  String c s +:+ t = String c (s +:+ t).
Proof. reflexivity. Qed.

Lemma append_nil_r (s : string) : s +:+ "" = s.
Proof.
  induction s as [|c s IH]; [reflexivity | now rewrite append_cons, IH].
Qed.

Lemma append_assoc (s1 s2 s3 : string) : (s1 +:+ s2) +:+ s3 = s1 +:+ (s2 +:+ s3).
Proof.
  induction s1 as [|c s1 IH]; [reflexivity | now rewrite !append_cons, IH].
Qed.

Lemma append_eq_nil (s1 s2 : string) : s1 +:+ s2 = "" -> s1 = "" /\ s2 = "".
Proof. destruct s1; [auto | rewrite append_cons; discriminate]. Qed.

(** ** The derivative matcher decides the meaning of a regular expression *)

Lemma seq_inv (r1 r2 : regex) (s : string) :
  matches (Seq r1 r2) s ->
  exists s1 s2, s = s1 +:+ s2 /\ matches r1 s1 /\ matches r2 s2.
Proof. inversion 1; subst; eauto. Qed.

Lemma alt_inv (r1 r2 : regex) (s : string) :
  matches (Alt r1 r2) s -> matches r1 s \/ matches r2 s.
Proof. inversion 1; subst; auto. Qed.

Lemma nullable_spec (r : regex) : nullable r = true <-> matches r "".
Proof.
  induction r as [| |p|r1 IH1 r2 IH2|r1 IH1 r2 IH2|r IH]; simpl.
  - split; [discriminate | inversion 1].
  - split; [constructor | reflexivity].
  - split; [discriminate | inversion 1].
  - rewrite andb_true_iff, IH1, IH2. split.
    + intros [H1 H2]. exact (m_seq _ _ "" "" H1 H2).
    + intros H. apply seq_inv in H. destruct H as (s1 & s2 & Heq & H1 & H2).
      symmetry in Heq. apply append_eq_nil in Heq. destruct Heq; subst. auto.
  - rewrite orb_true_iff, IH1, IH2. split.
    + intros [H|H]; [apply m_alt_l | apply m_alt_r]; exact H.
    + apply alt_inv.
  - split; [constructor | reflexivity].
Qed.

(** A non-empty match of [Star r] starts with a non-empty match of [r]. *)
Lemma star_cons_inv (r : regex) (c : ascii) (s : string) :
  matches (Star r) (String c s) ->
  exists s1 s2, s = s1 +:+ s2 /\ matches r (String c s1) /\ matches (Star r) s2.
Proof.
  intros H. remember (Star r) as sr eqn:Er. remember (String c s) as cs eqn:Es.
  revert s Es.
  induction H as [| | | | | |r' s1 s2 H1 _ H2 IH2]; intros t Et; try discriminate.
  injection Er as ->.
  destruct s1 as [|c1 s1].
  - rewrite append_nil_l in Et. apply IH2; [reflexivity | exact Et].
  - rewrite append_cons in Et. injection Et as Hc Ht. subst. exists s1, s2. auto.
Qed.

Lemma deriv_spec (c : ascii) (r : regex) (s : string) :
  matches (deriv c r) s <-> matches r (String c s).
Proof.
  revert s.
  induction r as [| |p|r1 IH1 r2 IH2|r1 IH1 r2 IH2|r IH]; intros s; simpl.
  - split; inversion 1.
  - split; inversion 1.
  - destruct (p c) eqn:Hp; split; intros H; inversion H; subst.
    + now constructor.
    + constructor.
    + congruence.
  - assert (Hseq : matches (Seq (deriv c r1) r2) s ->
                   matches (Seq r1 r2) (String c s)).
    { intros H. apply seq_inv in H. destruct H as (s1 & s2 & -> & H1 & H2).
      apply IH1 in H1. exact (m_seq _ _ _ _ H1 H2). }
    assert (Hinv : matches (Seq r1 r2) (String c s) ->
                   matches (Seq (deriv c r1) r2) s \/
                   (matches r1 "" /\ matches r2 (String c s))).
    { intros H. apply seq_inv in H. destruct H as (s1 & s2 & Heq & H1 & H2).
      destruct s1 as [|c1 s1].
      - rewrite append_nil_l in Heq. right. subst. auto.
      - rewrite append_cons in Heq. injection Heq as Hc Ht. subst. left.
        apply m_seq; [now apply IH1 | exact H2]. }
    destruct (nullable r1) eqn:Hn; split; intros H.
    + apply alt_inv in H. destruct H as [H|H]; [auto |].
      apply nullable_spec in Hn. apply IH2 in H.
      exact (m_seq _ _ "" _ Hn H).
    + destruct (Hinv H) as [H'|[_ H']]; [now apply m_alt_l |].
      apply m_alt_r. now apply IH2.
    + auto.
    + destruct (Hinv H) as [H'|[H' _]]; [exact H' |].
      apply nullable_spec in H'. congruence.
  - split; intros H; apply alt_inv in H; destruct H as [H|H].
    + apply m_alt_l. now apply IH1.
    + apply m_alt_r. now apply IH2.
    + apply m_alt_l. now apply IH1.
    + apply m_alt_r. now apply IH2.
  - split; intros H.
    + apply seq_inv in H. destruct H as (s1 & s2 & -> & H1 & H2).
      apply IH in H1. exact (m_star_cons _ _ _ H1 H2).
    + apply star_cons_inv in H. destruct H as (s1 & s2 & -> & H1 & H2).
      apply m_seq; [now apply IH | exact H2].
Qed.

Theorem accepts_spec (r : regex) (s : string) : accepts r s = true <-> matches r s.
Proof.
  revert r. induction s as [|c s IH]; intros r; simpl.
  - apply nullable_spec.
  - rewrite IH. apply deriv_spec.
Qed.


(** ** The regular expression of the code and the grammar of versions *)

Lemma join_cons (c : string) (cs : list string) :
  join "." (c :: cs) = c +:+ dotted cs.
Proof.
  revert c. induction cs as [|d cs IH]; intros c.
  - simpl. now rewrite append_nil_r.
  - change (join "." (c :: d :: cs)) with (c +:+ "." +:+ join "." (d :: cs)).
    now rewrite IH.
Qed.

Lemma class_inv (p : ascii -> bool) (s : string) :
  matches (Class p) s -> exists c, s = String c "" /\ p c = true.
Proof. inversion 1; subst; eauto. Qed.

Lemma star_class_spec (p : ascii -> bool) (s : string) :
  matches (Star (Class p)) s <-> forallb p (list_ascii_of_string s) = true.
Proof.
  split.
  - intros H. remember (Star (Class p)) as r eqn:Er.
    induction H as [| | | | | |r' s1 s2 H1 _ H2 IH2]; try discriminate.
    + reflexivity.
    + injection Er as ->. apply class_inv in H1. destruct H1 as (c & -> & Hc).
      rewrite append_cons, append_nil_l. simpl. now rewrite Hc, IH2.
  - induction s as [|c s IH]; simpl; intros H.
    + constructor.
    + apply andb_true_iff in H. destruct H as [Hc Hs].
      change (String c s) with (String c "" +:+ s).
      apply m_star_cons; [now constructor | auto].
Qed.

Lemma plus_digits_spec (s : string) :
  matches (Plus (Class is_digit)) s <-> is_component s = true.
Proof.
  unfold Plus, is_component. split.
  - intros H. apply seq_inv in H. destruct H as (s1 & s2 & -> & H1 & H2).
    apply class_inv in H1. destruct H1 as (c & -> & Hc).
    apply star_class_spec in H2.
    rewrite append_cons, append_nil_l. simpl. now rewrite Hc, H2.
  - destruct s as [|c s]; simpl; [discriminate |].
    intros H. apply andb_true_iff in H. destruct H as [Hc Hs].
    change (String c s) with (String c "" +:+ s).
    apply m_seq; [now constructor | now apply star_class_spec].
Qed.

Lemma dot_group_spec (s : string) :
  matches (Seq (Class is_dot) (Plus (Class is_digit))) s <->
  exists c, is_component c = true /\ s = "." +:+ c.
Proof.
  split.
  - intros H. apply seq_inv in H. destruct H as (s1 & s2 & -> & H1 & H2).
    apply class_inv in H1. destruct H1 as (c & -> & Hc).
    apply plus_digits_spec in H2. exists s2. split; [exact H2 |].
    unfold is_dot in Hc. apply Ascii.eqb_eq in Hc. now subst.
  - intros (c & Hc & ->). apply m_seq; [now constructor | now apply plus_digits_spec].
Qed.

Lemma upto_groups_spec (n : nat) (s : string) :
  matches (UpTo n (Seq (Class is_dot) (Plus (Class is_digit)))) s <->
  exists cs, (length cs <= n)%nat /\
             Forall (fun c => is_component c = true) cs /\ s = dotted cs.
Proof.
  revert s. induction n as [|n IH]; intros s; simpl.
  - split.
    + inversion 1; subst. exists []. simpl. auto with arith.
    + intros (cs & Hlen & _ & ->). destruct cs; [constructor | simpl in Hlen; lia].
  - split.
    + intros H. apply alt_inv in H. destruct H as [H|H].
      * inversion H; subst. exists []. simpl. split; [lia | auto].
      * apply seq_inv in H. destruct H as (s1 & s2 & -> & H1 & H2).
        apply dot_group_spec in H1. destruct H1 as (c & Hc & ->).
        apply IH in H2. destruct H2 as (cs & Hlen & Hcs & ->).
        exists (c :: cs). simpl. split; [lia |]. split; [now constructor |].
        now rewrite !append_assoc.
    + intros (cs & Hlen & Hcs & ->). destruct cs as [|c cs].
      * apply m_alt_l. constructor.
      * apply m_alt_r. inversion Hcs; subst. simpl.
        rewrite <- append_assoc. apply m_seq.
        -- apply dot_group_spec. eauto.
        -- apply IH. exists cs. simpl in Hlen. split; [lia | auto].
Qed.

(** The regular expression of the code accepts exactly the grammar of the
    specification. *)
Theorem regex_test_spec (s : string) : regex_test s = true <-> version_grammar s.
Proof.
  unfold regex_test, version_regex, version_grammar. rewrite accepts_spec. split.
  - intros H. apply seq_inv in H. destruct H as (c & t & -> & Hc & Ht).
    apply plus_digits_spec in Hc. apply upto_groups_spec in Ht.
    destruct Ht as (cs & Hlen & Hcs & ->).
    exists (c :: cs). simpl length. split; [lia |]. split; [now constructor |].
    now rewrite join_cons.
  - intros (cs & Hlen & Hcs & ->). destruct cs as [|c cs]; [simpl in Hlen; lia |].
    inversion Hcs; subst. rewrite join_cons. apply m_seq.
    + now apply plus_digits_spec.
    + apply upto_groups_spec. exists cs. simpl in Hlen. split; [lia | auto].
Qed.

Lemma regex_test_false (s : string) : regex_test s = false <-> ~ version_grammar s.
Proof.
  rewrite <- regex_test_spec. destruct (regex_test s); split; intros H.
  - discriminate.
  - now contradiction H.
  - discriminate.
  - reflexivity.
Qed.


Lemma grammar_chars (s : string) :
  version_grammar s ->
  forallb (fun c => is_digit c || is_dot c) (list_ascii_of_string s) = true.
Proof.
  intros (cs & _ & Hcs & ->).
  assert (Happ : forall s1 s2,
    list_ascii_of_string (s1 +:+ s2)
      = (list_ascii_of_string s1 ++ list_ascii_of_string s2)%list).
  { induction s1 as [|c s1 IH]; intros s2; [reflexivity |].
    rewrite append_cons. simpl. now rewrite IH. }
  assert (Hcomp : forall c, is_component c = true ->
    forallb (fun c => is_digit c || is_dot c) (list_ascii_of_string c) = true).
  { intros c Hc. unfold is_component in Hc. apply andb_true_iff in Hc.
    destruct Hc as [_ Hc]. rewrite forallb_forall in *. intros x Hx.
    now rewrite (Hc x Hx). }
  induction Hcs as [|c cs Hc Hcs IH]; [reflexivity |].
  rewrite join_cons. rewrite Happ, forallb_app, (Hcomp c Hc). simpl.
  clear IH. induction Hcs as [|d ds Hd Hds IH]; [reflexivity |].
  simpl dotted. rewrite !Happ, !forallb_app, (Hcomp d Hd), IH. reflexivity.
Qed.

(** ** Validation *)

Lemma grammar_excludes (s : string) (c : ascii) :
  In c (list_ascii_of_string s) -> is_digit c = false -> is_dot c = false ->
  ~ version_grammar s.
Proof.
  intros Hin Hd Hp Hg. apply grammar_chars in Hg.
  rewrite forallb_forall in Hg. specialize (Hg c Hin).
  rewrite Hd, Hp in Hg. discriminate.
Qed.

Lemma compareVersion_invalid_a (a b : string) :
  ~ version_grammar a -> compareVersion a b = inl (Error (not_a_version "a" a)).
Proof.
  intros Ha. apply regex_test_false in Ha. unfold compareVersion. now rewrite Ha.
Qed.

Lemma compareVersion_invalid_b (a b : string) :
  version_grammar a -> ~ version_grammar b ->
  compareVersion a b = inl (Error (not_a_version "b" b)).
Proof.
  intros Ha Hb. apply regex_test_spec in Ha. apply regex_test_false in Hb.
  unfold compareVersion. now rewrite Ha, Hb.
Qed.

Lemma compareVersion_valid (a b : string) :
  version_grammar a -> version_grammar b -> exists r, compareVersion a b = inr r.
Proof.
  intros Ha Hb. apply regex_test_spec in Ha, Hb.
  unfold compareVersion. rewrite Ha, Hb. simpl. eauto.
Qed.

(** C8: [compareVersion] throws the error that names parameter [a] when [a]
    is outside the grammar of one to four dot-separated runs of digits, the
    error that names [b] when [a] is inside and [b] outside, and returns a
    number when both are inside.  A string with a character that is neither
    a digit nor a dot, such as [1.2-beta], is outside the grammar. *)
Theorem compareVersion_validates (a b : string) :
  (~ version_grammar a ->
     compareVersion a b = inl (Error (not_a_version "a" a))) /\
  (version_grammar a -> ~ version_grammar b ->
     compareVersion a b = inl (Error (not_a_version "b" b))) /\
  (version_grammar a -> version_grammar b ->
     exists r, compareVersion a b = inr r) /\
  (forall c, In c (list_ascii_of_string a) ->
     is_digit c = false -> is_dot c = false -> ~ version_grammar a) /\
  ~ version_grammar "1.2-beta".
Proof.
  split; [apply compareVersion_invalid_a |].
  split; [apply compareVersion_invalid_b |].
  split; [apply compareVersion_valid |].
  split; [apply grammar_excludes |].
  apply (grammar_excludes _ "-"%char); [simpl; tauto | reflexivity | reflexivity].
Qed.

(** C8, witness: [1.2-beta] as the first and as the second parameter. *)
Lemma compareVersion_validates_witness :
  compareVersion "1.2-beta" "1.0" = inl (Error (not_a_version "a" "1.2-beta")) /\
  compareVersion "1.0" "1.2-beta" = inl (Error (not_a_version "b" "1.2-beta")).
Proof.
  split.
  - apply (proj1 (compareVersion_validates "1.2-beta" "1.0")).
    intros H. apply regex_test_spec in H. vm_compute in H. discriminate.
  - apply (proj1 (proj2 (compareVersion_validates "1.0" "1.2-beta"))).
    + apply regex_test_spec. vm_compute. reflexivity.
    + intros H. apply regex_test_spec in H. vm_compute in H. discriminate.
Defined.


(** ** Splitting and parsing valid versions *)

Lemma digit_not_dot (c : ascii) : is_digit c = true -> Ascii.eqb c "." = false.
Proof.
  intros H. destruct (Ascii.eqb_spec c "."%char) as [->|]; [discriminate H | reflexivity].
Qed.

Lemma component_digits (c : string) :
  is_component c = true -> forallb is_digit (list_ascii_of_string c) = true.
Proof. unfold is_component. intros H. now apply andb_true_iff in H. Qed.

Lemma split_run (c rest : string) :
  forallb is_digit (list_ascii_of_string c) = true ->
  split "." c = [c] /\ split "." (c +:+ "." +:+ rest) = c :: split "." rest.
Proof.
  induction c as [|a c IH]; intros H.
  - split; reflexivity.
  - simpl in H. apply andb_true_iff in H. destruct H as [Ha Hc].
    destruct (IH Hc) as [IH1 IH2]. rewrite append_cons. simpl.
    rewrite (digit_not_dot a Ha), IH1, IH2. split; reflexivity.
Qed.

Lemma split_join (c : string) (cs : list string) :
  Forall (fun c => is_component c = true) (c :: cs) ->
  split "." (join "." (c :: cs)) = c :: cs.
Proof.
  rewrite join_cons. revert c. induction cs as [|d ds IH]; intros c H.
  - inversion H as [|? ? Hc _]; subst. simpl. rewrite append_nil_r.
    exact (proj1 (split_run c "" (component_digits c Hc))).
  - inversion H as [|? ? Hc Hrest]; subst. simpl dotted.
    rewrite (proj2 (split_run c _ (component_digits c Hc))).
    now rewrite (IH d Hrest).
Qed.

Lemma parse_digits_run (acc : Z) (c : string) :
  forallb is_digit (list_ascii_of_string c) = true ->
  parse_digits (Some acc) c
  = Some (fold_left (fun a d => 10 * a + digit_value d) (list_ascii_of_string c) acc).
Proof.
  revert acc. induction c as [|a c IH]; intros acc H; [reflexivity |].
  simpl in H. apply andb_true_iff in H. destruct H as [Ha Hc].
  simpl. rewrite Ha. now rewrite IH.
Qed.

Lemma parseInt_component (c : string) :
  is_component c = true -> parseInt c = component_number c.
Proof.
  unfold is_component, parseInt, component_number, decimal_value.
  destruct c as [|a c]; [discriminate |]. simpl. intros H.
  apply andb_true_iff in H. destruct H as [Ha Hc].
  rewrite Ha. simpl. now rewrite parse_digits_run.
Qed.

Lemma map_parseInt_components (cs : list string) :
  Forall (fun c => is_component c = true) cs ->
  map parseInt cs = map component_number cs.
Proof.
  induction 1 as [|c cs Hc _ IH]; [reflexivity |].
  simpl. now rewrite IH, parseInt_component.
Qed.

Lemma join_grammar (cs : list string) :
  (1 <= length cs <= 4)%nat -> Forall (fun c => is_component c = true) cs ->
  version_grammar (join "." cs).
Proof. intros Hlen Hcs. exists cs. auto. Qed.

(** On valid versions the code compares the padded lists of numbers. *)
Lemma compareVersion_components (ca cb : list string) :
  (1 <= length ca <= 4)%nat -> Forall (fun c => is_component c = true) ca ->
  (1 <= length cb <= 4)%nat -> Forall (fun c => is_component c = true) cb ->
  compareVersion (join "." ca) (join "." cb)
  = let aParts := pad_to (length cb) (map component_number ca) in
    inr (compareParts aParts (pad_to (length aParts) (map component_number cb))).
Proof.
  intros Hla Hca Hlb Hcb. unfold compareVersion.
  rewrite (proj2 (regex_test_spec _) (join_grammar ca Hla Hca)).
  rewrite (proj2 (regex_test_spec _) (join_grammar cb Hlb Hcb)).
  destruct ca as [|a ca]; [simpl in Hla; lia |].
  destruct cb as [|b cb]; [simpl in Hlb; lia |].
  rewrite !split_join by assumption.
  rewrite !map_parseInt_components by assumption.
  cbv zeta. now rewrite !length_map.
Qed.

(** *** Rounding *)

Lemma neg_neg (x : Number) : neg (neg x) = x.
Proof. destruct x; simpl; [f_equal; lia | reflexivity ..]. Qed.

Lemma toNumber_neg (z : Z) : toNumber (- z) = neg (toNumber z).
Proof.
  unfold toNumber.
  destruct (Z.ltb_spec z 0), (Z.ltb_spec (- z) 0); try lia.
  - now rewrite neg_neg.
  - rewrite Z.opp_involutive. reflexivity.
  - assert (z = 0) as -> by lia. reflexivity.
Qed.

Lemma toNumber_exact (z : Z) : Z.abs z < safe_bound -> toNumber z = Finite z.
Proof.
  unfold toNumber, round_magnitude, safe_bound. intros H.
  destruct (Z.ltb_spec z 0).
  - destruct (Z.ltb_spec (- z) (2 ^ 53)); [simpl; f_equal; lia | lia].
  - destruct (Z.ltb_spec z (2 ^ 53)); [reflexivity | lia].
Qed.

Example round_ties_to_even :
  toNumber (2 ^ 53 + 1) = Finite (2 ^ 53) /\
  toNumber (2 ^ 53 + 3) = Finite (2 ^ 53 + 4).
Proof. split; vm_compute; reflexivity. Qed.

Example round_overflow :
  toNumber (2 ^ 1024 - 2 ^ 970 - 1) = Finite (2 ^ 1024 - 2 ^ 971) /\
  toNumber (2 ^ 1024 - 2 ^ 970) = Infinity.
Proof. split; vm_compute; reflexivity. Qed.

Lemma strict_ne_zero_neg (x : Number) : strict_ne_zero (neg x) = strict_ne_zero x.
Proof.
  destruct x; simpl; try reflexivity.
  destruct (Z.eqb_spec z 0), (Z.eqb_spec (- z) 0); try reflexivity; lia.
Qed.

Lemma sub_finite_swap (x y : Z) :
  sub (Finite y) (Finite x) = neg (sub (Finite x) (Finite y)).
Proof. simpl. rewrite <- toNumber_neg. f_equal. lia. Qed.

(** *** The loop on lists of finite numbers *)

Lemma compareParts_swap (xs ys : list Number) :
  length xs = length ys ->
  Forall (fun x => is_finite x = true) xs ->
  Forall (fun y => is_finite y = true) ys ->
  compareParts ys xs = neg (compareParts xs ys).
Proof.
  revert ys. induction xs as [|x xs IH]; intros [|y ys] Hlen Hx Hy;
    try discriminate Hlen; [reflexivity |].
  inversion Hx as [|? ? Hfx Hxs]; inversion Hy as [|? ? Hfy Hys]; subst.
  destruct x as [x| | |]; try discriminate Hfx.
  destruct y as [y| | |]; try discriminate Hfy.
  cbn [compareParts tl]. rewrite (sub_finite_swap x y), strict_ne_zero_neg.
  destruct (strict_ne_zero (sub (Finite x) (Finite y))); [reflexivity |].
  apply IH; [now injection Hlen | assumption ..].
Qed.

Lemma compareParts_refl (xs : list Number) :
  Forall (fun x => is_finite x = true) xs -> compareParts xs xs = Finite 0.
Proof.
  induction 1 as [|x xs Hx _ IH]; [reflexivity |].
  destruct x as [x| | |]; try discriminate Hx.
  cbn [compareParts tl]. simpl sub. rewrite Z.sub_diag. exact IH.
Qed.

Lemma pad_to_length (n : nat) (xs : list Number) :
  length (pad_to n xs) = Nat.max n (length xs).
Proof.
  unfold pad_to. destruct (Nat.ltb_spec (length xs) n).
  - rewrite length_app, length_replicate. lia.
  - lia.
Qed.

Lemma pad_to_same (xs : list Number) : pad_to (length xs) xs = xs.
Proof. unfold pad_to. now rewrite Nat.ltb_irrefl. Qed.

Lemma pad_to_ge (n : nat) (xs : list Number) :
  (n <= length xs)%nat -> pad_to n xs = xs.
Proof.
  unfold pad_to. intros H. destruct (Nat.ltb_spec (length xs) n); [lia | reflexivity].
Qed.

Lemma pad_to_finite (n : nat) (xs : list Number) :
  Forall (fun x => is_finite x = true) xs ->
  Forall (fun x => is_finite x = true) (pad_to n xs).
Proof.
  unfold pad_to. intros H. destruct (length xs <? n)%nat; [| exact H].
  apply Forall_app. split; [exact H |]. apply Forall_replicate. reflexivity.
Qed.

(** The two calls of [pad_to] do not depend on which operand comes first. *)
Lemma pad_to_swap (xs ys : list Number) :
  pad_to (length (pad_to (length xs) ys)) xs = pad_to (length ys) xs /\
  pad_to (length (pad_to (length ys) xs)) ys = pad_to (length xs) ys.
Proof.
  rewrite !pad_to_length.
  destruct (Nat.le_gt_cases (length xs) (length ys)) as [H|H].
  - replace (Nat.max (length xs) (length ys)) with (length ys) by lia.
    replace (Nat.max (length ys) (length xs)) with (length ys) by lia.
    split; [reflexivity |].
    now rewrite pad_to_same, (pad_to_ge (length xs) ys H).
  - assert (H' : (length ys <= length xs)%nat) by lia.
    replace (Nat.max (length xs) (length ys)) with (length xs) by lia.
    replace (Nat.max (length ys) (length xs)) with (length xs) by lia.
    split; [| reflexivity].
    now rewrite pad_to_same, (pad_to_ge (length ys) xs H').
Qed.


(** ** The comparator on finite and on safe components *)

(** For versions whose components stay finite the comparator is
    antisymmetric and reflexive. *)
Theorem compareVersion_antisym_finite (a b : string) :
  version_grammar a -> version_grammar b ->
  finite_components a -> finite_components b ->
  exists r, compareVersion a b = inr r /\
            compareVersion b a = inr (neg r) /\
            compareVersion a a = inr (Finite 0).
Proof.
  intros Ha Hb Hfa Hfb. unfold compareVersion.
  rewrite (proj2 (regex_test_spec a) Ha), (proj2 (regex_test_spec b) Hb).
  cbv zeta. simpl negb. cbv iota.
  unfold finite_components in *.
  set (A := map parseInt (split "." a)). set (B := map parseInt (split "." b)).
  assert (HA : Forall (fun x => is_finite x = true) A).
  { subst A. now apply Forall_map. }
  assert (HB : Forall (fun x => is_finite x = true) B).
  { subst B. now apply Forall_map. }
  clearbody A B. destruct (pad_to_swap A B) as [E1 E2].
  eexists. split; [reflexivity |]. split.
  - rewrite E1, E2. f_equal. apply compareParts_swap.
    + rewrite !pad_to_length. lia.
    + now apply pad_to_finite.
    + now apply pad_to_finite.
  - rewrite pad_to_same, pad_to_same. f_equal. now apply compareParts_refl.
Qed.

Lemma digit_value_range (c : ascii) : is_digit c = true -> 0 <= digit_value c <= 9.
Proof.
  unfold is_digit, digit_value. intros H. apply andb_true_iff in H.
  destruct H as [H1 H2]. apply N.leb_le in H1, H2. lia.
Qed.

Lemma decimal_value_nonneg (c : string) :
  forallb is_digit (list_ascii_of_string c) = true -> 0 <= decimal_value c.
Proof.
  unfold decimal_value.
  assert (G : forall l acc, 0 <= acc -> forallb is_digit l = true ->
            0 <= fold_left (fun a d => 10 * a + digit_value d) l acc).
  { induction l as [|d l IH]; intros acc Hacc Hl; [exact Hacc |].
    simpl in Hl. apply andb_true_iff in Hl. destruct Hl as [Hd Hl].
    simpl. apply IH; [| exact Hl]. pose proof (digit_value_range d Hd). lia. }
  apply G. lia.
Qed.


Lemma pad_to_map_Finite (n : nat) (xs : list Z) :
  pad_to n (map Finite xs) = map Finite (pad_zeros n xs).
Proof.
  unfold pad_to, pad_zeros. rewrite length_map, map_app.
  destruct (Nat.ltb_spec (length xs) n) as [H|H].
  - f_equal. induction (n - length xs)%nat; [reflexivity | simpl; now f_equal].
  - replace (n - length xs)%nat with 0%nat by lia. simpl. now rewrite app_nil_r.
Qed.

Lemma pad_zeros_range (n : nat) (xs : list Z) :
  Forall (fun x => 0 <= x < safe_bound) xs ->
  Forall (fun x => 0 <= x < safe_bound) (pad_zeros n xs).
Proof.
  intros H. unfold pad_zeros. apply Forall_app. split; [exact H |].
  apply Forall_replicate. unfold safe_bound. lia.
Qed.

Lemma compareParts_exact (xs ys : list Z) :
  length xs = length ys ->
  Forall (fun x => 0 <= x < safe_bound) xs ->
  Forall (fun y => 0 <= y < safe_bound) ys ->
  compareParts (map Finite xs) (map Finite ys)
  = Finite (first_nonzero (zip_with Z.sub xs ys)).
Proof.
  revert ys. induction xs as [|x xs IH]; intros [|y ys] Hlen Hx Hy;
    try discriminate Hlen; [reflexivity |].
  inversion Hx as [|? ? Hx1 Hxs]; inversion Hy as [|? ? Hy1 Hys]; subst.
  cbn [map compareParts tl zip_with first_nonzero]. simpl sub.
  rewrite toNumber_exact by lia. simpl strict_ne_zero.
  destruct (Z.eqb_spec (x - y) 0); simpl negb; cbv iota.
  - apply IH; [now injection Hlen | assumption ..].
  - reflexivity.
Qed.

(** For components below [safe_bound] the code computes the comparison of
    the specification. *)
Theorem compareVersion_exact (ca cb : list string) :
  (1 <= length ca <= 4)%nat -> Forall (fun c => is_component c = true) ca ->
  (1 <= length cb <= 4)%nat -> Forall (fun c => is_component c = true) cb ->
  safe_components ca -> safe_components cb ->
  compareVersion (join "." ca) (join "." cb)
  = inr (Finite (spec_compare (map decimal_value ca) (map decimal_value cb))).
Proof.
  intros Hla Hca Hlb Hcb Hsa Hsb.
  rewrite compareVersion_components by assumption. cbv zeta. f_equal.
  assert (Hnum : forall cs, Forall (fun c => is_component c = true) cs ->
            safe_components cs ->
            map component_number cs = map Finite (map decimal_value cs) /\
            Forall (fun x => 0 <= x < safe_bound) (map decimal_value cs)).
  { induction 1 as [|c cs Hc _ IH]; intros Hs; [split; constructor |].
    inversion Hs as [|? ? Hs1 Hs2]; subst. destruct (IH Hs2) as [IH1 IH2].
    pose proof (decimal_value_nonneg c (component_digits c Hc)) as Hge.
    simpl. split.
    - rewrite IH1. unfold component_number. rewrite toNumber_exact by lia.
      reflexivity.
    - constructor; [lia | exact IH2]. }
  destruct (Hnum ca Hca Hsa) as [Ea Ra]. destruct (Hnum cb Hcb Hsb) as [Eb Rb].
  rewrite Ea, Eb. rewrite !pad_to_map_Finite, length_map.
  unfold spec_compare. rewrite !length_map.
  set (xs := map decimal_value ca) in *. set (ys := map decimal_value cb) in *.
  assert (Hxs : length xs = length ca) by (subst xs; apply length_map).
  assert (Hys : length ys = length cb) by (subst ys; apply length_map).
  assert (Hpx : pad_zeros (length cb) xs
                = pad_zeros (Nat.max (length ca) (length cb)) xs).
  { unfold pad_zeros. do 2 f_equal. lia. }
  assert (Hpy : pad_zeros (length (pad_zeros (length cb) xs)) ys
                = pad_zeros (Nat.max (length ca) (length cb)) ys).
  { unfold pad_zeros. rewrite length_app, length_replicate. do 2 f_equal. lia. }
  rewrite Hpy, Hpx. apply compareParts_exact.
  - unfold pad_zeros. rewrite !length_app, !length_replicate. lia.
  - now apply pad_zeros_range.
  - now apply pad_zeros_range.
Qed.

Example compare_padding : compareVersion "1.2" "1.2.0.0" = inr (Finite 0).
Proof. vm_compute. reflexivity. Qed.

Example compare_numeric : compareVersion "1.9" "1.10" = inr (Finite (-1)).
Proof. vm_compute. reflexivity. Qed.

(** ** The comparator beyond the range of doubles *)

(** C5: the components are compared as doubles.  A component of 310 digits
    parses to [Infinity], so a version and the same version padded with [.0]
    compare as NaN although all their components are equal; and
    [9007199254740993] parses to the double [9007199254740992], so the two
    compare as equal although the numbers differ by one. *)
Theorem compareVersion_huge_padding :
  version_grammar huge_version /\
  version_grammar (huge_version +:+ ".0") /\
  compareVersion huge_version (huge_version +:+ ".0") = inr NaN /\
  spec_compare [decimal_value huge_version] [decimal_value huge_version; 0] = 0 /\
  compareVersion "9007199254740993" "9007199254740992" = inr (Finite 0) /\
  spec_compare [9007199254740993] [9007199254740992] = 1.
Proof.
  split; [apply regex_test_spec; vm_compute; reflexivity |].
  split; [apply regex_test_spec; vm_compute; reflexivity |].
  repeat split; vm_compute; reflexivity.
Qed.

(** C9: a valid version of 309 nines compared with itself yields NaN, which
    equals neither zero nor its own negation. *)
Theorem compareVersion_nines_not_reflexive :
  version_grammar nines_version /\
  compareVersion nines_version nines_version = inr NaN /\
  loose_eq NaN (Finite 0) = false /\
  loose_eq NaN (neg NaN) = false.
Proof.
  split; [apply regex_test_spec; vm_compute; reflexivity |].
  repeat split; vm_compute; reflexivity.
Qed.


(** ** The calendar *)

Lemma DayFromYear_succ (y : Z) : DayFromYear (y + 1) = DayFromYear y + DaysInYear y.
Proof.
  unfold DayFromYear, DaysInYear.
  destruct (Z.eqb_spec (y mod 4) 0), (Z.eqb_spec (y mod 100) 0),
           (Z.eqb_spec (y mod 400) 0); simpl negb; cbv iota; Z.div_mod_to_equations; lia.
Qed.

(** The year of a time value as the language defines it: the year whose
    start is the latest one not after [t]. *)
Lemma YearFromTime_spec (t : Z) :
  TimeFromYear (YearFromTime t) <= t < TimeFromYear (YearFromTime t + 1).
Proof.
  unfold TimeFromYear, YearFromTime, Day, msPerDay.
  set (d := t / 86400000).
  assert (Hd : 86400000 * d <= t < 86400000 * (d + 1)) by (subst d; Z.div_mod_to_equations; lia).
  clearbody d.
  set (y := 1970 + 400 * d / 146097).
  assert (Hlo : DayFromYear (y - 1) <= d).
  { subst y. unfold DayFromYear. Z.div_mod_to_equations. lia. }
  assert (Hhi : d < DayFromYear (y + 2)).
  { subst y. unfold DayFromYear. Z.div_mod_to_equations. lia. }
  clearbody y.
  pose proof (DayFromYear_succ y) as S1.
  pose proof (DayFromYear_succ (y - 1)) as S0.
  pose proof (DayFromYear_succ (y + 1)) as S2.
  replace (y - 1 + 1) with y in S0 by lia.
  replace (y + 1 + 1) with (y + 2) in * by lia.
  destruct (Z.leb_spec (DayFromYear (y + 1)) d).
  - replace (y + 1 + 1) with (y + 2) by lia. lia.
  - destruct (Z.leb_spec (DayFromYear y) d).
    + lia.
    + replace (y - 1 + 1) with y by lia. lia.
Qed.


Lemma MonthFromTime_range (t : Z) : 0 <= MonthFromTime t <= 11.
Proof.
  unfold MonthFromTime.
  repeat match goal with
         | |- context [if ?c then _ else _] => destruct c
         end; lia.
Qed.

Lemma InLeapYear_range (t : Z) : 0 <= InLeapYear t <= 1.
Proof. unfold InLeapYear. destruct (_ =? _); lia. Qed.

Lemma DaysInYear_cases (y : Z) : DaysInYear y = 365 \/ DaysInYear y = 366.
Proof.
  unfold DaysInYear.
  repeat match goal with
         | |- context [if ?c then _ else _] => destruct c
         end; auto.
Qed.

Lemma month_cases (m : Z) :
  0 <= m <= 11 ->
  m = 0 \/ m = 1 \/ m = 2 \/ m = 3 \/ m = 4 \/ m = 5 \/ m = 6 \/ m = 7 \/
  m = 8 \/ m = 9 \/ m = 10 \/ m = 11.
Proof. lia. Qed.

Lemma MakeDay_in_year (y m leap dt : Z) :
  0 <= m <= 11 ->
  leap = (if DaysInYear y =? 366 then 1 else 0) ->
  MakeDay y m dt = DayFromYear y + month_start m leap + dt - 1.
Proof.
  intros Hm ->. unfold MakeDay.
  replace (m / 12) with 0 by (Z.div_mod_to_equations; lia).
  replace (m mod 12) with m by (Z.div_mod_to_equations; lia).
  now rewrite Z.add_0_r.
Qed.

(** [setDate] stays in the month's frame: day numbers shift with the date. *)
Lemma MakeDay_this_month (t dt : Z) :
  MakeDay (YearFromTime t) (MonthFromTime t) dt = Day t - DateFromTime t + dt.
Proof.
  rewrite (MakeDay_in_year _ _ (InLeapYear t)); [| apply MonthFromTime_range | reflexivity].
  unfold DateFromTime, DayWithinYear. lia.
Qed.

(** [setMonth] to the month before: the same date, one month's length
    earlier. *)
Lemma MakeDay_previous_month (t : Z) :
  MakeDay (YearFromTime t) (MonthFromTime t - 1) (DateFromTime t)
  = Day t - days_in_previous_month t.
Proof.
  unfold days_in_previous_month, DateFromTime, DayWithinYear.
  pose proof (InLeapYear_range t) as Hleap.
  destruct (month_cases _ (MonthFromTime_range t)) as
    [E|[E|[E|[E|[E|[E|[E|[E|[E|[E|[E|E]]]]]]]]]]]; rewrite E.
  2-12: rewrite (MakeDay_in_year _ _ (InLeapYear t)) by (lia || reflexivity).
  2-12: simpl; lia.
  unfold MakeDay. change ((0 - 1) / 12) with (-1). change ((0 - 1) mod 12) with 11.
  pose proof (DayFromYear_succ (YearFromTime t + -1)) as S.
  replace (YearFromTime t + -1 + 1) with (YearFromTime t) in S by lia.
  destruct (DaysInYear_cases (YearFromTime t + -1)) as [D|D];
    rewrite D in *; simpl; lia.
Qed.


Lemma TimeWithinDay_range (t : Z) : 0 <= TimeWithinDay t < msPerDay.
Proof. unfold TimeWithinDay, msPerDay. Z.div_mod_to_equations. lia. Qed.

Lemma Day_TimeWithinDay (t : Z) : t = Day t * msPerDay + TimeWithinDay t.
Proof. unfold Day, TimeWithinDay, msPerDay. Z.div_mod_to_equations. lia. Qed.

Lemma DayFromYear_mono (y1 y2 : Z) : y1 <= y2 -> DayFromYear y1 <= DayFromYear y2.
Proof. unfold DayFromYear. intros H. Z.div_mod_to_equations. lia. Qed.

(** [YearFromTime t] is the only year that contains [t]. *)
Lemma YearFromTime_unique (t y : Z) :
  TimeFromYear y <= t < TimeFromYear (y + 1) -> YearFromTime t = y.
Proof.
  intros Hy. pose proof (YearFromTime_spec t) as HY.
  unfold TimeFromYear, msPerDay in *.
  destruct (Z.lt_trichotomy (YearFromTime t) y) as [Hlt|[Heq|Hgt]]; [| exact Heq |].
  - pose proof (DayFromYear_mono (YearFromTime t + 1) y ltac:(lia)). lia.
  - pose proof (DayFromYear_mono (y + 1) (YearFromTime t) ltac:(lia)). lia.
Qed.

(** [MakeDay] finds the first day of the month the language asks for: a time
    value in year [ym], month [mn], on the first. *)
Lemma MakeDay_first_of_month (ym mn : Z) :
  0 <= mn <= 11 ->
  let t := MakeDate (MakeDay ym mn 1) 0 in
  YearFromTime t = ym /\ MonthFromTime t = mn /\ DateFromTime t = 1.
Proof.
  intros Hmn. cbv zeta.
  set (leap := if DaysInYear ym =? 366 then 1 else 0).
  rewrite (MakeDay_in_year ym mn leap 1 Hmn eq_refl).
  set (t := MakeDate (DayFromYear ym + month_start mn leap + 1 - 1) 0).
  assert (Hday : Day t = DayFromYear ym + month_start mn leap).
  { subst t. unfold Day, MakeDate, msPerDay. Z.div_mod_to_equations. lia. }
  assert (Hstart : 0 <= month_start mn leap < DaysInYear ym).
  { subst leap. destruct (DaysInYear_cases ym) as [D|D]; rewrite D;
      destruct (month_cases mn Hmn) as
        [E|[E|[E|[E|[E|[E|[E|[E|[E|[E|[E|E]]]]]]]]]]]; rewrite E; simpl; lia. }
  assert (Hyear : YearFromTime t = ym).
  { apply YearFromTime_unique. unfold TimeFromYear.
    rewrite DayFromYear_succ.
    pose proof (Day_TimeWithinDay t) as Ht.
    pose proof (TimeWithinDay_range t) as Hr. rewrite Hday in Ht.
    unfold msPerDay in *. lia. }
  assert (Hwithin : DayWithinYear t = month_start mn leap).
  { unfold DayWithinYear. rewrite Hyear, Hday. lia. }
  assert (Hleap : InLeapYear t = leap).
  { unfold InLeapYear. now rewrite Hyear. }
  assert (Hmonth : MonthFromTime t = mn).
  { unfold MonthFromTime. rewrite Hwithin, Hleap.
    assert (Hl : leap = 0 \/ leap = 1) by (subst leap; destruct (_ =? _); auto).
    clearbody leap t.
    destruct Hl as [-> | ->];
      destruct (month_cases mn Hmn) as
        [E|[E|[E|[E|[E|[E|[E|[E|[E|[E|[E|E]]]]]]]]]]]; rewrite E; reflexivity. }
  split; [exact Hyear |]. split; [exact Hmonth |].
  unfold DateFromTime. rewrite Hwithin, Hmonth, Hleap. lia.
Qed.

(** ** Running the check *)

Lemma bind_run {A B} (m : M A) (f : A -> M B) (w : World) :
  (m ≫= f) w = match m w with
               | (inr a, w') => f a w'
               | (inl e, w') => (inl e, w')
               end.
Proof. reflexivity. Qed.

(** The filter neither reads nor changes the world. *)
Lemma filterM_is_newer (cur : string) (vs : list VersionData) (w : World) :
  filterM (is_newer cur) vs w = (newer_result cur vs, w).
Proof.
  induction vs as [|v vs IH]; [reflexivity |].
  cbn [filterM newer_result]. rewrite bind_run. unfold is_newer at 1.
  rewrite bind_run. unfold lift.
  destruct (compareVersion (version v) cur) as [e|r]; [reflexivity |].
  cbn [mret M_ret]. rewrite bind_run, IH.
  destruct (newer_result cur vs); reflexivity.
Qed.

Lemma newer_result_valid (cur : string) (vs : list VersionData) :
  version_grammar cur ->
  Forall (fun v => version_grammar (version v)) vs ->
  newer_result cur vs = inr (newer_than cur vs).
Proof.
  intros Hcur. induction 1 as [|v vs Hv _ IH]; [reflexivity |].
  cbn [newer_result]. unfold newer_than in *. cbn [List.filter].
  destruct (compareVersion_valid (version v) cur Hv Hcur) as [r Hr].
  rewrite Hr, IH. reflexivity.
Qed.

(** An invalid current version ends the check at the first cached entry, with
    the error that names parameter [b]. *)
Lemma newer_result_invalid_current (cur : string) (v : VersionData)
    (vs : list VersionData) :
  version_grammar (version v) -> ~ version_grammar cur ->
  newer_result cur (v :: vs) = inl (Error (not_a_version "b" cur)).
Proof.
  intros Hv Hcur. cbn [newer_result].
  now rewrite (compareVersion_invalid_b (version v) cur Hv Hcur).
Qed.

Section Runs.

Variable Script_name : string.
Variable LocalTZA : Z -> bool -> Z.

Lemma loadCache_run (w : World) :
  loadCache Script_name w
  = (inr (default defaultCache (storage w !! storageKey Script_name)), w).
Proof. reflexivity. Qed.

(** The four dates, each from its own reading of the clock. *)
Lemma intervalDates_run (w : World) :
  exists dates,
    intervalDates LocalTZA w = (inr dates, advance_clock 4 w) /\
    let now i := clock w (reading_index i + clock_reads w)%nat in
    dates EveryTime = now EveryTime /\
    dates Daily = setHours LocalTZA (now Daily) 0 0 0 0 /\
    dates Weekly = setHours LocalTZA (adjust_weekly LocalTZA (now Weekly)) 0 0 0 0 /\
    dates Monthly = setHours LocalTZA (adjust_monthly LocalTZA (now Monthly)) 0 0 0 0.
Proof. eexists. split; [reflexivity |]. cbv zeta. repeat split. Qed.

End Runs.


(** ** The dates of the intervals are the cutoffs *)

Section Cutoffs.

Variable LocalTZA : Z -> bool -> Z.

Lemma setHours_midnight (d : Z) :
  setHours LocalTZA d 0 0 0 0 = start_of_day LocalTZA d.
Proof.
  unfold setHours, start_of_day, MakeDate, MakeTime. f_equal. lia.
Qed.

Lemma adjust_weekly_shift (d : Z) :
  adjust_weekly LocalTZA d = days_before LocalTZA 7 d.
Proof.
  unfold adjust_weekly, setDate, getDate, days_before.
  rewrite MakeDay_this_month. unfold MakeDate. f_equal.
  pose proof (Day_TimeWithinDay (LocalTime LocalTZA d)). lia.
Qed.

Lemma adjust_monthly_shift (d : Z) :
  adjust_monthly LocalTZA d
  = days_before LocalTZA (days_in_previous_month (LocalTime LocalTZA d)) d.
Proof.
  unfold adjust_monthly, setMonth, getMonth, days_before.
  rewrite MakeDay_previous_month. unfold MakeDate. f_equal.
  pose proof (Day_TimeWithinDay (LocalTime LocalTZA d)). lia.
Qed.

(** The dates the code builds are the cutoffs of the specification. *)
Lemma interval_date_cutoff (interval : UpdateCheckInterval) (now : Z) :
  interval_date LocalTZA interval now = cutoff LocalTZA interval now.
Proof.
  destruct interval; unfold interval_date, cutoff.
  - reflexivity.
  - apply setHours_midnight.
  - now rewrite setHours_midnight, adjust_weekly_shift.
  - now rewrite setHours_midnight, adjust_monthly_shift.
Qed.

End Cutoffs.

Section FixedOffset.

Variable LocalTZA : Z -> bool -> Z.
Variable offset : Z.
Hypothesis fixed_offset : forall t b, LocalTZA t b = offset.

(** Without changes of the offset, local midnight is the moment less its
    local time of day, and a day on the local calendar is 24 hours. *)
Lemma start_of_day_fixed (t : Z) :
  start_of_day LocalTZA t = t - TimeWithinDay (LocalTime LocalTZA t).
Proof.
  unfold start_of_day, UTC.
  pose proof (Day_TimeWithinDay (LocalTime LocalTZA t)) as H.
  unfold LocalTime in *. rewrite !fixed_offset in *. lia.
Qed.

Lemma days_before_fixed (k t : Z) : days_before LocalTZA k t = t - k * msPerDay.
Proof. unfold days_before, UTC, LocalTime. rewrite !fixed_offset. lia. Qed.

End FixedOffset.


Section CheckRuns.

Variable Script_name : string.
Variable LocalTZA : Z -> bool -> Z.

(** The three ways a refresh can end. *)
Lemma refresh_run (url : string) (w : World) :
  refresh Script_name url w =
  match network w url with
  | NetworkFailure reason => (inl (HostError reason), with_call (CallFetch url) w)
  | Responded r =>
      match json r with
      | None => (inl (HostError "json"), with_call (CallFetch url) w)
      | Some vs =>
          let c := {| lastChecked := clock w (clock_reads w); versions := vs |} in
          (inr c, refreshed_world (storageKey Script_name) url c w)
      end
  end.
Proof.
  unfold refresh, fetch, Response_json, Storage_set, refreshed_world.
  rewrite !bind_run. cbn [record_call]. unfold network_reply. cbn [network].
  destruct (network w url) as [reason|r]; [reflexivity |].
  destruct (json r) as [vs|]; [| reflexivity].
  cbn. destruct (storage_writable w); reflexivity.
Qed.

(** The gate: the cache is loaded, the four dates are built, and the cache is
    refreshed when its [lastChecked] is not after the date of the interval. *)
Lemma cached_after_check_run (url : string) (interval : UpdateCheckInterval)
    (w : World) :
  cached_after_check Script_name LocalTZA url interval w =
  let cached := default defaultCache (storage w !! storageKey Script_name) in
  let now := clock w (reading_index interval + clock_reads w)%nat in
  if lastChecked cached <=? interval_date LocalTZA interval now
  then refresh Script_name url (advance_clock 4 w)
  else (inr cached, advance_clock 4 w).
Proof.
  unfold cached_after_check. rewrite bind_run, loadCache_run, bind_run.
  destruct (intervalDates_run LocalTZA w) as (dates & -> & He & Hd & Hw & Hm).
  cbv zeta in *. unfold getTime.
  replace (dates interval)
    with (interval_date LocalTZA interval
            (clock w (reading_index interval + clock_reads w)%nat))
    by (destruct interval; symmetry; assumption).
  destruct (_ <=? _); reflexivity.
Qed.

Lemma updateAvailable_run (url : string) (interval : UpdateCheckInterval)
    (cur : string) (w : World) :
  updateAvailable Script_name LocalTZA url interval cur w =
  match cached_after_check Script_name LocalTZA url interval w with
  | (inr c, w') => (newer_result cur (versions c), w')
  | (inl e, w') => (inl e, w')
  end.
Proof.
  unfold updateAvailable. rewrite bind_run.
  destruct (cached_after_check _ _ _ _ _) as [[e|c] w']; [reflexivity |].
  apply filterM_is_newer.
Qed.

End CheckRuns.


(** ** The check: fetching, gating, loading, filtering *)

Section Check.

Variable Script_name : string.
Variable LocalTZA : Z -> bool -> Z.

(** A failed request, or a body that is not JSON, ends the check with the
    error of the host and leaves the storage as it was. *)
Lemma updateAvailable_fetch_failure (url : string)
    (interval : UpdateCheckInterval) (cur : string) (w : World) :
  (match network w url with
   | NetworkFailure _ => True
   | Responded r => json r = None
   end) ->
  storage (snd (updateAvailable Script_name LocalTZA url interval cur w))
    = storage w /\
  (lastChecked (default defaultCache (storage w !! storageKey Script_name))
     <= interval_date LocalTZA interval
          (clock w (reading_index interval + clock_reads w)%nat) ->
   exists what,
     fst (updateAvailable Script_name LocalTZA url interval cur w)
       = inl (HostError what)).
Proof.
  intros Hnet. rewrite updateAvailable_run, cached_after_check_run. cbv zeta.
  destruct (Z.leb_spec
              (lastChecked (default defaultCache (storage w !! storageKey Script_name)))
              (interval_date LocalTZA interval
                 (clock w (reading_index interval + clock_reads w)%nat))) as [Hle|Hgt].
  - rewrite refresh_run. cbn [network advance_clock].
    destruct (network w url) as [reason|r].
    + split; [reflexivity | intros _; eexists; reflexivity].
    + rewrite Hnet. split; [reflexivity | intros _; eexists; reflexivity].
  - split; [reflexivity | lia].
Qed.

(** A stale cache is replaced by whatever the body of the response holds:
    the status of the response plays no part. *)
Lemma updateAvailable_refreshes (url : string) (interval : UpdateCheckInterval)
    (cur : string) (w : World) (r : Response) (vs : list VersionData) :
  lastChecked (default defaultCache (storage w !! storageKey Script_name))
    <= interval_date LocalTZA interval
         (clock w (reading_index interval + clock_reads w)%nat) ->
  network w url = Responded r -> json r = Some vs ->
  updateAvailable Script_name LocalTZA url interval cur w
  = (newer_result cur vs,
     refreshed_world (storageKey Script_name) url
       {| lastChecked := clock w (4 + clock_reads w)%nat; versions := vs |}
       (advance_clock 4 w)).
Proof.
  intros Hstale Hnet Hjson.
  rewrite updateAvailable_run, cached_after_check_run. cbv zeta.
  destruct (Z.leb_spec
              (lastChecked (default defaultCache (storage w !! storageKey Script_name)))
              (interval_date LocalTZA interval
                 (clock w (reading_index interval + clock_reads w)%nat)));
    [| lia].
  rewrite refresh_run. cbn [network advance_clock clock clock_reads].
  now rewrite Hnet, Hjson.
Qed.

End Check.

(** C1: a request for the manifest that is answered with status 404 and a
    JSON body does not end the check.  With no cache record, so that the
    cache is stale, [updateAvailable] returns the versions of that body
    and stores them together with the time of the check. *)
Theorem updateAvailable_ignores_status :
  let w := still_world None 1730592000123 (Responded not_found) in
  let run := updateAvailable "app" utc manifest_url Daily "1.0" w in
  ok not_found = false /\
  storage w !! "scriptUpdater.app" = None /\
  fst run = inr [release "9.9"] /\
  storage (snd run) !! "scriptUpdater.app"
    = Some {| lastChecked := 1730592000123; versions := [release "9.9"] |}.
Proof. repeat split; vm_compute; reflexivity. Qed.


(** C2: the date the code compares [lastChecked] with is the [cutoff]: the
    reading of the clock itself for "every time"; for "daily", "weekly" and
    "monthly" the local midnight of the reading's day, of the day seven days
    before it on the local calendar, and of the day as many days before it
    as the previous calendar month is long.  The manifest is fetched when
    [lastChecked] is at or before the cutoff; when it is after, no call is
    issued, the storage is untouched and the cached versions are filtered.
    With [lastChecked] equal to the reading, "every time" fetches, and
    "daily" issues no call exactly when the reading is later than the local
    midnight of its day: in a time zone with a fixed offset, exactly when the
    reading is not local midnight itself. *)
Theorem updateAvailable_gating (Script_name : string)
    (LocalTZA : Z -> bool -> Z)
    (url : string) (interval : UpdateCheckInterval) (cur : string) (w : World) :
  let cached := default defaultCache (storage w !! storageKey Script_name) in
  let now := clock w (reading_index interval + clock_reads w)%nat in
  let limit := cutoff LocalTZA interval now in
  let run := updateAvailable Script_name LocalTZA url interval cur w in
  (lastChecked cached <= limit ->
     exists rest, calls (snd run) = (calls w ++ CallFetch url :: rest)%list) /\
  (limit < lastChecked cached ->
     calls (snd run) = calls w /\ storage (snd run) = storage w /\
     fst run = newer_result cur (versions cached)) /\
  (interval = EveryTime -> lastChecked cached = now ->
     exists rest, calls (snd run) = (calls w ++ CallFetch url :: rest)%list) /\
  (interval = Daily -> lastChecked cached = now ->
     (calls (snd run) = calls w <-> start_of_day LocalTZA now < now)) /\
  (forall offset, (forall t b, LocalTZA t b = offset) ->
     interval = Daily -> lastChecked cached = now ->
     (calls (snd run) = calls w <-> TimeWithinDay (LocalTime LocalTZA now) <> 0)).
Proof.
  cbv zeta.
  set (cached := default defaultCache (storage w !! storageKey Script_name)).
  set (now := clock w (reading_index interval + clock_reads w)%nat).
  assert (Hstale : lastChecked cached <= cutoff LocalTZA interval now ->
            exists rest,
              calls (snd (updateAvailable Script_name LocalTZA url interval cur w))
              = (calls w ++ CallFetch url :: rest)%list).
  { intros Hle. rewrite updateAvailable_run, cached_after_check_run. cbv zeta.
    fold cached now. rewrite interval_date_cutoff.
    destruct (Z.leb_spec (lastChecked cached) (cutoff LocalTZA interval now));
      [| lia].
    rewrite refresh_run. cbn [network advance_clock].
    destruct (network w url) as [reason|r]; [exists []; reflexivity |].
    destruct (json r) as [vs|]; [| exists []; reflexivity].
    eexists. cbn. rewrite <- app_assoc. reflexivity. }
  assert (Hfresh : cutoff LocalTZA interval now < lastChecked cached ->
            updateAvailable Script_name LocalTZA url interval cur w
            = (newer_result cur (versions cached), advance_clock 4 w)).
  { intros Hgt. rewrite updateAvailable_run, cached_after_check_run. cbv zeta.
    fold cached now. rewrite interval_date_cutoff.
    destruct (Z.leb_spec (lastChecked cached) (cutoff LocalTZA interval now));
      [lia | reflexivity]. }
  assert (Hdaily : interval = Daily -> lastChecked cached = now ->
            (calls (snd (updateAvailable Script_name LocalTZA url interval cur w))
             = calls w <-> start_of_day LocalTZA now < now)).
  { intros Hi Hnow.
    assert (Hcut : cutoff LocalTZA interval now = start_of_day LocalTZA now)
      by (rewrite Hi; reflexivity).
    clearbody cached now. split.
    - intros Hcalls.
      destruct (Z.lt_ge_cases (start_of_day LocalTZA now) now) as [Hlt|Hge];
        [exact Hlt |].
      destruct Hstale as [rest Hrest]; [lia |].
      rewrite Hrest in Hcalls. apply (f_equal length) in Hcalls.
      rewrite length_app in Hcalls. simpl in Hcalls. lia.
    - intros Hlt. rewrite Hfresh by lia. reflexivity. }
  clearbody cached now. split; [exact Hstale |]. split; [| split; [| split]].
  - intros Hgt. rewrite (Hfresh Hgt). auto.
  - intros Hi Hnow. apply Hstale. rewrite Hi. simpl cutoff. lia.
  - exact Hdaily.
  - intros offset Hfixed Hi Hnow. rewrite (Hdaily Hi Hnow).
    rewrite (start_of_day_fixed _ offset Hfixed).
    pose proof (TimeWithinDay_range (LocalTime LocalTZA now)). lia.
Qed.


(** C2, counterexample: at local midnight a check with interval "daily"
    whose [lastChecked] equals that very moment fetches the manifest. *)
Lemma daily_fetches_at_midnight :
  let w := cache_of_now midnight [release "1.0"] in
  let run := updateAvailable "app" utc manifest_url Daily "1.0" w in
  storage w !! "scriptUpdater.app"
    = Some {| lastChecked := clock w 1%nat; versions := [release "1.0"] |} /\
  TimeWithinDay (LocalTime utc (clock w 1%nat)) = 0 /\
  In (CallFetch manifest_url) (calls (snd run)) /\
  calls (snd run) <> calls w.
Proof.
  cbv zeta. split; [vm_compute; reflexivity |]. split; [vm_compute; reflexivity |].
  split; [vm_compute; auto | vm_compute; discriminate].
Qed.

(** C2, witness: one hour ahead of UTC, five milliseconds after a UTC
    midnight, a cache written at that moment is reused by a daily check. *)
Lemma updateAvailable_gating_witness :
  let w := cache_of_now (midnight + 5) [release "1.0"] in
  (forall t b, utc_plus_1 t b = 3600000) /\
  calls (snd (updateAvailable "app" utc_plus_1 manifest_url Daily "1.0" w))
  = calls w.
Proof.
  cbv zeta. split; [reflexivity |].
  apply (proj2 (proj2 (proj2 (proj2
           (updateAvailable_gating "app" utc_plus_1 manifest_url Daily "1.0"
              (cache_of_now (midnight + 5) [release "1.0"])))))
           3600000 (fun _ _ => eq_refl) eq_refl eq_refl).
  vm_compute. discriminate.
Defined.

(** C3, counterexample: with no record in the storage [getCache] returns
    null, not the default cache. *)
Lemma getCache_absent_is_null :
  let w := still_world None midnight (Responded manifest_ok) in
  storage w !! storageKey "app" = None /\
  fst (getCache "app" w) = inr None /\
  fst (getCache "app" w) <> inr (Some defaultCache).
Proof.
  cbv zeta. split; [vm_compute; reflexivity |].
  split; [vm_compute; reflexivity | vm_compute; discriminate].
Qed.

(** C3: with no record under the key of the script, the load at the start of
    [updateAvailable] yields the default cache [{lastChecked: 0, versions: []}]
    without throwing, and the check answers as it would with that record
    stored; [getCache] returns null, also without throwing. *)
Theorem loadCache_default (Script_name : string) (LocalTZA : Z -> bool -> Z)
    (w : World) :
  storage w !! storageKey Script_name = None ->
  loadCache Script_name w = (inr defaultCache, w) /\
  getCache Script_name w = (inr None, w) /\
  forall url interval cur,
    fst (updateAvailable Script_name LocalTZA url interval cur w)
    = fst (updateAvailable Script_name LocalTZA url interval cur
             (with_storage (<[storageKey Script_name := defaultCache]> (storage w)) w)).
Proof.
  intros Habsent. split; [| split].
  - rewrite loadCache_run, Habsent. reflexivity.
  - unfold getCache, Storage_get. now rewrite Habsent.
  - intros url interval cur.
    rewrite !updateAvailable_run, !cached_after_check_run. cbv zeta.
    cbn [storage with_storage clock clock_reads].
    rewrite Habsent, lookup_insert_eq. cbn [default].
    destruct (_ <=? _); [| reflexivity].
    rewrite !refresh_run. cbn [network advance_clock with_storage clock clock_reads].
    destruct (network w url) as [reason|r]; [reflexivity |].
    destruct (json r); reflexivity.
Qed.

(** C3, witness: the script [app] with an empty storage. *)
Lemma loadCache_default_witness :
  let w := still_world None midnight (Responded manifest_ok) in
  loadCache "app" w = (inr defaultCache, w) /\ getCache "app" w = (inr None, w).
Proof.
  cbv zeta.
  pose proof (loadCache_default "app" utc
                (still_world None midnight (Responded manifest_ok)) eq_refl) as H.
  split; [exact (proj1 H) | exact (proj1 (proj2 H))].
Defined.

Lemma newer_result_first_invalid (cur : string) (vs : list VersionData) :
  version_grammar cur ->
  ~ Forall (fun v => version_grammar (version v)) vs ->
  exists bad, In bad vs /\ ~ version_grammar (version bad) /\
              newer_result cur vs = inl (Error (not_a_version "a" (version bad))).
Proof.
  intros Hcur. induction vs as [|v vs IH]; intros Hnot.
  - contradiction Hnot. constructor.
  - destruct (regex_test (version v)) eqn:Hv.
    + apply regex_test_spec in Hv.
      destruct IH as (bad & Hin & Hbad & Hres).
      { intros Hall. apply Hnot. now constructor. }
      exists bad. split; [now right |]. split; [exact Hbad |].
      cbn [newer_result].
      destruct (compareVersion_valid (version v) cur Hv Hcur) as [r Hr].
      now rewrite Hr, Hres.
    + apply regex_test_false in Hv. exists v. split; [now left |].
      split; [exact Hv |]. cbn [newer_result].
      now rewrite (compareVersion_invalid_a (version v) cur Hv).
Qed.

(** C4, counterexample: with the cached versions [1.0] and [2.0-beta] and
    the current version [1.2], a check that reuses the cache returns no list:
    it throws the validation error for [2.0-beta]. *)
Lemma updateAvailable_invalid_entry :
  let w := cache_of_now (midnight + 5) [release "1.0"; release "2.0-beta"] in
  let run := updateAvailable "app" utc manifest_url Daily "1.2" w in
  version_grammar "1.2" /\
  calls (snd run) = [] /\
  fst run = inl (Error (not_a_version "a" "2.0-beta")) /\
  forall l, fst run <> inr l.
Proof.
  cbv zeta. split; [apply regex_test_spec; vm_compute; reflexivity |].
  split; [vm_compute; reflexivity |].
  assert (H : fst (updateAvailable "app" utc manifest_url Daily "1.2"
                     (cache_of_now (midnight + 5) [release "1.0"; release "2.0-beta"]))
              = inl (Error (not_a_version "a" "2.0-beta"))).
  { vm_compute. reflexivity. }
  split; [exact H |]. intros l. rewrite H. discriminate.
Qed.

(** C4: for a valid current version, when every entry of the cache the
    check works on (loaded, or just fetched) has a valid version, the check
    returns exactly the entries that compare greater than the current
    version, in the order of the cache; when some entry has none, the check
    throws the validation error that names parameter [a] for such an
    entry. *)
Theorem updateAvailable_filters (Script_name : string)
    (LocalTZA : Z -> bool -> Z) (url : string) (interval : UpdateCheckInterval)
    (cur : string) (w w' : World) (c : StorageData) :
  cached_after_check Script_name LocalTZA url interval w = (inr c, w') ->
  version_grammar cur ->
  (Forall (fun v => version_grammar (version v)) (versions c) ->
     updateAvailable Script_name LocalTZA url interval cur w
     = (inr (newer_than cur (versions c)), w')) /\
  (~ Forall (fun v => version_grammar (version v)) (versions c) ->
     exists bad, In bad (versions c) /\ ~ version_grammar (version bad) /\
       updateAvailable Script_name LocalTZA url interval cur w
       = (inl (Error (not_a_version "a" (version bad))), w')).
Proof.
  intros Hrun Hcur. rewrite updateAvailable_run, Hrun. split.
  - intros Hall. now rewrite newer_result_valid.
  - intros Hnot.
    destruct (newer_result_first_invalid cur (versions c) Hcur Hnot)
      as (bad & Hin & Hbad & Hres).
    exists bad. now rewrite Hres.
Qed.

(** C4, witness: cached versions [1.0], [2.0], [1.5] and current version
    [1.2] give [2.0], [1.5]. *)
Lemma updateAvailable_filters_witness :
  let vs := [release "1.0"; release "2.0"; release "1.5"] in
  let w := cache_of_now (midnight + 5) vs in
  updateAvailable "app" utc manifest_url Daily "1.2" w
  = (inr (newer_than "1.2" vs), advance_clock 4 w) /\
  newer_than "1.2" vs = [release "2.0"; release "1.5"].
Proof.
  cbv zeta. split; [| vm_compute; reflexivity].
  assert (Hrun : cached_after_check "app" utc manifest_url Daily
                   (cache_of_now (midnight + 5)
                      [release "1.0"; release "2.0"; release "1.5"])
                 = (inr {| lastChecked := midnight + 5;
                           versions := [release "1.0"; release "2.0"; release "1.5"] |},
                    advance_clock 4
                      (cache_of_now (midnight + 5)
                         [release "1.0"; release "2.0"; release "1.5"])))
    by (vm_compute; reflexivity).
  assert (Hcur : version_grammar "1.2")
    by (apply regex_test_spec; vm_compute; reflexivity).
  assert (Hall : Forall (fun v => version_grammar (version v))
                   [release "1.0"; release "2.0"; release "1.5"])
    by (repeat constructor; apply regex_test_spec; vm_compute; reflexivity).
  exact (proj1 (updateAvailable_filters "app" utc manifest_url Daily "1.2"
                  _ _ _ Hrun Hcur) Hall).
Defined.


(** ** Install *)

Lemma rename_run (src dst : string) (w : World) :
  FileManager.rename src dst w =
  match files w !! src, files w !! dst with
  | Some node, None =>
      (inr tt, with_files (<[dst := node]> (delete src (files w)))
                          (with_call (CallRename src dst) w))
  | _, _ => (inl (HostError "rename"), with_call (CallRename src dst) w)
  end.
Proof.
  unfold FileManager.rename. rewrite bind_run. cbn [record_call].
  rewrite bind_run. cbn [get_files files].
  destruct (files w !! src); [| reflexivity].
  destruct (files w !! dst); reflexivity.
Qed.

Lemma scriptBackup_ne (dir : string) : scriptBackup dir <> dir.
Proof.
  unfold scriptBackup. intros H.
  rewrite <- (append_nil_r dir) in H at 2.
  apply (inj (String.app dir)) in H. discriminate H.
Qed.

(** C6: when the staging directory is neither the live directory nor the
    backup path, [installDownloadedScript] is the rename of the live directory
    to the backup path followed, only if that succeeded, by the rename of the
    staging directory to the live path.  A failed first rename changes no
    file.  After a successful first rename the backup path holds what the
    live path held, the live path is empty and the staging directory is as
    it was; a failed second rename leaves exactly that state, a successful
    one puts the staged directory at the live path, and the calls on record
    are the two renames in this order. *)
Theorem install_order (Script_directory temporaryDirectory : string) (w : World) :
  let live := Script_directory in
  let backup := scriptBackup Script_directory in
  let staging := unzippedFolder temporaryDirectory in
  let first := FileManager.rename live backup w in
  staging <> live -> staging <> backup ->
  installDownloadedScript Script_directory temporaryDirectory w
    = match first with
      | (inr _, w1) => FileManager.rename staging live w1
      | (inl e, w1) => (inl e, w1)
      end /\
  (forall e w1, first = (inl e, w1) ->
     files w1 = files w /\ calls w1 = (calls w ++ [CallRename live backup])%list) /\
  (forall u w1, first = (inr u, w1) ->
     is_Some (files w !! live) /\
     files w1 !! backup = files w !! live /\
     files w1 !! live = None /\
     files w1 !! staging = files w !! staging /\
     calls w1 = (calls w ++ [CallRename live backup])%list /\
     (forall e w2, FileManager.rename staging live w1 = (inl e, w2) ->
        files w2 = files w1) /\
     (forall u' w2, FileManager.rename staging live w1 = (inr u', w2) ->
        is_Some (files w !! staging) /\
        files w2 !! live = files w !! staging /\
        files w2 !! backup = files w !! live /\
        files w2 !! staging = None /\
        calls w2 = (calls w ++ [CallRename live backup; CallRename staging live])%list)).
Proof.
  cbv zeta. intros Hsl Hsb.
  pose proof (scriptBackup_ne Script_directory) as Hbl.
  split; [reflexivity |].
  rewrite rename_run.
  destruct (files w !! Script_directory) as [old|] eqn:Hlive.
  2: { split; [| discriminate]. intros e w1 [= <- <-]. auto. }
  destruct (files w !! scriptBackup Script_directory) as [other|] eqn:Hbackup.
  { split; [| discriminate]. intros e w1 [= <- <-]. auto. }
  split; [discriminate |]. intros u w1 [= <- <-].
  cbn [files calls with_files with_call].
  split; [eauto |]. split; [apply lookup_insert_eq |].
  split; [rewrite lookup_insert_ne by exact Hbl; apply lookup_delete_eq |].
  split.
  { rewrite lookup_insert_ne by congruence.
    apply lookup_delete_ne. congruence. }
  split; [reflexivity |].
  rewrite rename_run. cbn [files calls with_files with_call].
  rewrite (lookup_insert_ne _ (scriptBackup Script_directory)
             (unzippedFolder temporaryDirectory))
    by congruence.
  rewrite (lookup_delete_ne _ Script_directory (unzippedFolder temporaryDirectory))
    by congruence.
  rewrite (lookup_insert_ne _ (scriptBackup Script_directory) Script_directory)
    by exact Hbl.
  rewrite lookup_delete_eq.
  destruct (files w !! unzippedFolder temporaryDirectory) as [new|] eqn:Hstaging.
  - split; [discriminate |]. intros u' w2 [= <- <-].
    cbn [files calls with_files with_call].
    split; [eauto |]. split; [apply lookup_insert_eq |].
    split.
    { rewrite lookup_insert_ne by congruence.
      rewrite lookup_delete_ne by congruence.
      apply lookup_insert_eq. }
    split.
    { rewrite lookup_insert_ne by congruence.
      apply lookup_delete_eq. }
    now rewrite <- app_assoc.
  - split; [| discriminate]. intros e w2 [= <- <-]. reflexivity.
Qed.


(** C6, witness: the script in [/scripts/app], staging in [/tmp]. *)
Lemma install_order_witness :
  unzippedFolder "/tmp" <> "/scripts/app" /\
  unzippedFolder "/tmp" <> scriptBackup "/scripts/app" /\
  installDownloadedScript "/scripts/app" "/tmp" (installed_world (Responded archive_ok))
  = match FileManager.rename "/scripts/app" (scriptBackup "/scripts/app")
            (installed_world (Responded archive_ok)) with
    | (inr _, w1) => FileManager.rename (unzippedFolder "/tmp") "/scripts/app" w1
    | (inl e, w1) => (inl e, w1)
    end.
Proof.
  assert (H1 : unzippedFolder "/tmp" <> "/scripts/app") by (vm_compute; discriminate).
  assert (H2 : unzippedFolder "/tmp" <> scriptBackup "/scripts/app")
    by (vm_compute; discriminate).
  split; [exact H1 |]. split; [exact H2 |].
  exact (proj1 (install_order "/scripts/app" "/tmp"
                  (installed_world (Responded archive_ok)) H1 H2)).
Defined.

(** C7: when the response to the download has a status outside 200-299,
    [downloadUpdate] throws a [DownloadError] that holds the URL and the
    response; its string form shows the URL, the status and the status text;
    it is neither a plain error nor an error of the host; and the only call
    issued is the fetch, so that no file has changed. *)
Theorem downloadUpdate_non_success (temporaryDirectory : string)
    (Data_fromArrayBuffer : list Byte.byte -> option Data)
    (extract : Data -> gmap string Data -> option (gmap string Data))
    (url : string) (w : World) (r : Response) :
  network w url = Responded r -> ok r = false ->
  let e := {| DownloadError.url := url; DownloadError.response := r |} in
  downloadUpdate temporaryDirectory Data_fromArrayBuffer extract url w
    = (inl (ThrownDownloadError e), with_call (CallFetch url) w) /\
  files (with_call (CallFetch url) w) = files w /\
  calls (with_call (CallFetch url) w) = (calls w ++ [CallFetch url])%list /\
  DownloadError.toString e
    = "Failed to download the update from " +:+ url +:+ ": "
        +:+ pretty (status r) +:+ " " +:+ statusText r /\
  (forall message, ThrownDownloadError e <> Error message) /\
  (forall what, ThrownDownloadError e <> HostError what).
Proof.
  intros Hnet Hok. cbv zeta. split; [| repeat split; discriminate].
  unfold downloadUpdate, fetch. rewrite bind_run, bind_run. cbn [record_call].
  unfold network_reply. cbn [network]. rewrite Hnet, Hok. reflexivity.
Qed.

(** C7, witness: a download that is answered with 404. *)
Lemma downloadUpdate_non_success_witness :
  let w := installed_world (Responded not_found) in
  network w "https://example.org/9.9.zip" = Responded not_found /\
  ok not_found = false /\
  fst (downloadUpdate "/tmp" Some unpack_index "https://example.org/9.9.zip" w)
    = inl (ThrownDownloadError
             {| DownloadError.url := "https://example.org/9.9.zip";
                DownloadError.response := not_found |}) /\
  files (snd (downloadUpdate "/tmp" Some unpack_index "https://example.org/9.9.zip" w))
    = files w.
Proof.
  cbv zeta. split; [reflexivity |]. split; [reflexivity |].
  pose proof (downloadUpdate_non_success "/tmp" Some unpack_index
                "https://example.org/9.9.zip"
                (installed_world (Responded not_found)) not_found
                eq_refl eq_refl) as H.
  cbv zeta in H. destruct H as (Hrun & Hfiles & _).
  rewrite Hrun. split; [reflexivity | exact Hfiles].
Defined.

Example DownloadError_toString_404 :
  DownloadError.toString
    {| DownloadError.url := "https://example.org/9.9.zip";
       DownloadError.response := not_found |}
  = "Failed to download the update from https://example.org/9.9.zip: 404 Not Found".
Proof. vm_compute. reflexivity. Qed.


(** ** Download *)

Lemma writeAsData_run (path : string) (data : Data) (w : World) :
  FileManager.writeAsData path data w =
  match files w !! path with
  | Some (Directory _) =>
      (inl (HostError "writeAsData"), with_call (CallWriteAsData path) w)
  | _ => (inr tt, with_files (<[path := File data]> (files w))
                             (with_call (CallWriteAsData path) w))
  end.
Proof.
  unfold FileManager.writeAsData. rewrite bind_run. cbn [record_call].
  rewrite bind_run. cbn [get_files files].
  destruct (files w !! path) as [[d|es]|]; reflexivity.
Qed.

Lemma existsSync_run (path : string) (w : World) :
  FileManager.existsSync path w = (inr (bool_decide (is_Some (files w !! path))), w).
Proof. reflexivity. Qed.

Lemma createDirectory_run (path : string) (w : World) :
  FileManager.createDirectory path w =
  match files w !! path with
  | None => (inr tt, with_files (<[path := Directory ∅]> (files w))
                                (with_call (CallCreateDirectory path) w))
  | Some (Directory _) => (inr tt, with_call (CallCreateDirectory path) w)
  | Some (File _) =>
      (inl (HostError "createDirectory"), with_call (CallCreateDirectory path) w)
  end.
Proof.
  unfold FileManager.createDirectory. rewrite bind_run. cbn [record_call].
  rewrite bind_run. cbn [get_files files].
  destruct (files w !! path) as [[d|es]|]; reflexivity.
Qed.

Lemma unzip_run (extract : Data -> gmap string Data -> option (gmap string Data))
    (src dst : string) (w : World) :
  FileManager.unzip extract src dst w =
  match files w !! src, files w !! dst with
  | Some (File archive), Some (Directory entries) =>
      match extract archive entries with
      | Some entries' =>
          (inr tt, with_files (<[dst := Directory entries']> (files w))
                              (with_call (CallUnzip src dst) w))
      | None => (inl (HostError "unzip"), with_call (CallUnzip src dst) w)
      end
  | _, _ => (inl (HostError "unzip"), with_call (CallUnzip src dst) w)
  end.
Proof.
  unfold FileManager.unzip. rewrite bind_run. cbn [record_call].
  rewrite bind_run. cbn [get_files files].
  destruct (files w !! src) as [[a|?]|]; try reflexivity.
  destruct (files w !! dst) as [[?|es]|]; try reflexivity.
  destruct (extract a es); reflexivity.
Qed.

Lemma readDirectory_run (path : string) (w : World) :
  FileManager.readDirectory path w =
  match files w !! path with
  | Some (Directory entries) => (inr (elements (dom entries)), w)
  | _ => (inl (HostError "readDirectory"), w)
  end.
Proof.
  unfold FileManager.readDirectory. rewrite bind_run. cbn [get_files files].
  destruct (files w !! path) as [[?|es]|]; reflexivity.
Qed.

Lemma archive_path_ne (tmp : string) :
  Path_join tmp "scriptUpdate.zip" <> unzippedFolder tmp.
Proof.
  unfold unzippedFolder, Path_join. intros H.
  apply (inj (String.app tmp)) in H. discriminate H.
Qed.

(** A successful install puts what was staged at the live path. *)
Lemma install_promotes (dir tmp : string) (w w2 : World) (u : unit) :
  unzippedFolder tmp <> dir -> unzippedFolder tmp <> scriptBackup dir ->
  installDownloadedScript dir tmp w = (inr u, w2) ->
  files w2 !! dir = files w !! unzippedFolder tmp /\
  is_Some (files w !! unzippedFolder tmp).
Proof.
  intros Hsl Hsb. pose proof (scriptBackup_ne dir) as Hbl.
  unfold installDownloadedScript. rewrite bind_run, rename_run.
  destruct (files w !! dir) as [old|] eqn:Hlive; [| discriminate].
  destruct (files w !! scriptBackup dir) eqn:Hbackup; [discriminate |].
  rewrite rename_run. cbn [files with_files with_call].
  rewrite (lookup_insert_ne _ (scriptBackup dir) (unzippedFolder tmp)) by congruence.
  rewrite (lookup_delete_ne _ dir (unzippedFolder tmp)) by congruence.
  rewrite (lookup_insert_ne _ (scriptBackup dir) dir) by exact Hbl.
  rewrite lookup_delete_eq.
  destruct (files w !! unzippedFolder tmp) as [new|]; [| discriminate].
  intros [= _ <-]. cbn [files with_files with_call].
  split; [apply lookup_insert_eq | eauto].
Qed.



Section Frame.

Variable temporaryDirectory : string.
Variable extract : Data -> gmap string Data -> option (gmap string Data).
Variable w0 : World.










End Frame.



Lemma downloadUpdate_unfold (temporaryDirectory : string)
    (Data_fromArrayBuffer : list Byte.byte -> option Data)
    (extract : Data -> gmap string Data -> option (gmap string Data))
    (url : string) (w : World) :
  downloadUpdate temporaryDirectory Data_fromArrayBuffer extract url w =
  let w1 := with_call (CallFetch url) w in
  match network w url with
  | NetworkFailure reason => (inl (HostError reason), w1)
  | Responded r =>
      if ok r then
        match bytes r with
        | None => (inl (HostError "bytes"), w1)
        | Some buffer =>
            match Data_fromArrayBuffer buffer with
            | None => (inl (Error "Could not convert from ArrayBuffer to data"), w1)
            | Some data => unpack temporaryDirectory extract data w1
            end
        end
      else (inl (ThrownDownloadError
                   {| DownloadError.url := url; DownloadError.response := r |}), w1)
  end.
Proof.
  unfold downloadUpdate, fetch, network_reply, Response_bytes.
  rewrite bind_run, bind_run. cbn [record_call network]. cbv zeta.
  destruct (network w url) as [reason|r]; [reflexivity |].
  destruct (ok r); cbn [negb]; [| reflexivity].
  rewrite bind_run. destruct (bytes r) as [buffer|]; [| reflexivity].
  cbn [mret M_ret]. destruct (Data_fromArrayBuffer buffer); reflexivity.
Qed.

Lemma remove_run (path : string) (w : World) :
  FileManager.remove path w =
  match files w !! path with
  | Some _ => (inr tt, with_files (delete path (files w))
                                  (with_call (CallRemove path) w))
  | None => (inl (HostError "remove"), with_call (CallRemove path) w)
  end.
Proof.
  unfold FileManager.remove. rewrite bind_run. cbn [record_call].
  rewrite bind_run. cbn [get_files files].
  destruct (files w !! path); reflexivity.
Qed.





(** The same download with an extractor that unpacks on top of what is
    there: the old file is listed next to the new one, and the install
    promotes both. *)
Example download_on_stale_staging :
  let w := installed_world (Responded archive_ok) in
  let run := downloadUpdate "/tmp" Some unpack_index "https://example.org/2.0.zip" w in
  fst run = inr ["old.tsx"; "index.tsx"] /\
  calls (snd run) = [CallFetch "https://example.org/2.0.zip";
                     CallWriteAsData "/tmp/scriptUpdate.zip";
                     CallUnzip "/tmp/scriptUpdate.zip" "/tmp/scriptUpdate"] /\
  files (snd (installDownloadedScript "/scripts/app" "/tmp" (snd run))) !! "/scripts/app"
  = Some (Directory {[ "index.tsx" := [Byte.x03]; "old.tsx" := [Byte.x02] ]}).
Proof.
  cbv zeta. split; [vm_compute; reflexivity |]. split; [vm_compute; reflexivity |].
  vm_compute. reflexivity.
Qed.

(** * Further properties of the code *)

(** ** The order of versions *)

Lemma grammar_split (s : string) :
  version_grammar s ->
  exists cs, s = join "." cs /\ split "." s = cs /\
             (1 <= length cs <= 4)%nat /\
             Forall (fun c => is_component c = true) cs.
Proof.
  intros (cs & Hlen & Hcs & ->). exists cs.
  destruct cs as [|c cs]; [simpl in Hlen; lia |].
  rewrite split_join by exact Hcs. auto.
Qed.

Lemma first_nonzero_app_zeros (l : list Z) (k : nat) :
  first_nonzero (l ++ replicate k 0) = first_nonzero l.
Proof.
  induction l as [|d l IH]; simpl.
  - induction k as [|k IHk]; [reflexivity | exact IHk].
  - destruct (d =? 0); [exact IH | reflexivity].
Qed.

Lemma zip_sub_zeros (k : nat) :
  zip_with Z.sub (replicate k 0) (replicate k 0) = replicate k 0.
Proof. induction k as [|k IH]; [reflexivity | simpl; now rewrite IH]. Qed.

Lemma pad_zeros_length (n : nat) (xs : list Z) :
  (length xs <= n)%nat -> length (pad_zeros n xs) = n.
Proof. intros H. unfold pad_zeros. rewrite length_app, length_replicate. lia. Qed.

Lemma pad_zeros_more (n m : nat) (xs : list Z) :
  (length xs <= n)%nat -> (n <= m)%nat ->
  pad_zeros m xs = (pad_zeros n xs ++ replicate (m - n) 0)%list.
Proof.
  intros H1 H2. unfold pad_zeros. rewrite <- app_assoc. f_equal.
  rewrite <- replicate_add. f_equal. lia.
Qed.

(** Padding to four components gives the comparison of the specification. *)
Lemma spec_compare_numbers (xs ys : list Z) :
  (length xs <= 4)%nat -> (length ys <= 4)%nat ->
  spec_compare xs ys
  = first_nonzero (zip_with Z.sub (pad_zeros 4 xs) (pad_zeros 4 ys)).
Proof.
  intros Hx Hy. unfold spec_compare. cbv zeta.
  set (n := Nat.max (length xs) (length ys)).
  rewrite (pad_zeros_more n 4 xs), (pad_zeros_more n 4 ys) by lia.
  rewrite zip_with_app
    by (rewrite !pad_zeros_length by lia; reflexivity).
  now rewrite zip_sub_zeros, first_nonzero_app_zeros.
Qed.

Lemma first_nonzero_zero (xs ys : list Z) :
  length xs = length ys ->
  (first_nonzero (zip_with Z.sub xs ys) = 0 <-> xs = ys).
Proof.
  revert ys. induction xs as [|x xs IH]; intros [|y ys] Hlen;
    try discriminate Hlen; [tauto |].
  simpl. injection Hlen as Hlen. specialize (IH ys Hlen).
  destruct (Z.eqb_spec (x - y) 0) as [E|E].
  - rewrite IH. split; [intros ->; f_equal; lia | intros [= _ ->]; reflexivity].
  - split; [lia | intros [= -> _]; lia].
Qed.

Lemma first_nonzero_neg (xs ys : list Z) :
  length xs = length ys ->
  (first_nonzero (zip_with Z.sub xs ys) < 0 <-> lex_lt xs ys).
Proof.
  revert ys. induction xs as [|x xs IH]; intros [|y ys] Hlen;
    try discriminate Hlen; [simpl; lia |].
  simpl. injection Hlen as Hlen. specialize (IH ys Hlen).
  destruct (Z.eqb_spec (x - y) 0) as [E|E].
  - rewrite IH. split; [intros H; right; split; [lia | exact H] |].
    intros [H|[_ H]]; [lia | exact H].
  - split; [intros H; left; lia | intros [H|[H _]]; lia].
Qed.

Lemma first_nonzero_swap (xs ys : list Z) :
  first_nonzero (zip_with Z.sub ys xs) = - first_nonzero (zip_with Z.sub xs ys).
Proof.
  revert ys. induction xs as [|x xs IH]; intros [|y ys]; try reflexivity.
  simpl. rewrite IH.
  destruct (Z.eqb_spec (x - y) 0), (Z.eqb_spec (y - x) 0); lia.
Qed.

Lemma lex_lt_trans (xs ys zs : list Z) :
  lex_lt xs ys -> lex_lt ys zs -> lex_lt xs zs.
Proof.
  revert ys zs. induction xs as [|x xs IH]; intros [|y ys] [|z zs]; simpl;
    try tauto.
  intros [H1|[E1 H1]] [H2|[E2 H2]].
  - left. lia.
  - left. lia.
  - left. lia.
  - right. split; [lia | exact (IH ys zs H1 H2)].
Qed.

Lemma lex_lt_irrefl (xs : list Z) : ~ lex_lt xs xs.
Proof. induction xs as [|x xs IH]; simpl; [tauto |]. intros [H|[_ H]]; [lia | auto]. Qed.

(** On safe versions the code returns the first non-zero difference of the
    four numbers the versions denote. *)
Lemma compareVersion_numbers (a b : string) :
  safe_version a -> safe_version b ->
  compareVersion a b
  = inr (Finite (first_nonzero
                   (zip_with Z.sub (version_numbers a) (version_numbers b)))) /\
  length (version_numbers a) = 4%nat /\ length (version_numbers b) = 4%nat.
Proof.
  intros [Ha Hsa] [Hb Hsb].
  destruct (grammar_split a Ha) as (ca & Ea & Sa & La & Ca).
  destruct (grammar_split b Hb) as (cb & Eb & Sb & Lb & Cb).
  unfold version_numbers. rewrite Sa, Sb in *.
  rewrite !pad_zeros_length by (rewrite length_map; lia).
  split; [| auto]. rewrite Ea, Eb.
  rewrite (compareVersion_exact ca cb La Ca Lb Cb Hsa Hsb).
  rewrite spec_compare_numbers by (rewrite length_map; lia). reflexivity.
Qed.

(** X1: on versions with components below [2 ^ 53] the result is a finite
    number whose sign orders the versions as the lists of their four numbers
    are ordered lexicographically: zero exactly for equal lists, negative
    exactly when the first is smaller, positive exactly when it is greater. *)
Theorem compareVersion_orders_numbers (a b : string) :
  safe_version a -> safe_version b ->
  exists d, compareVersion a b = inr (Finite d) /\
            (d = 0 <-> version_numbers a = version_numbers b) /\
            (d < 0 <-> lex_lt (version_numbers a) (version_numbers b)) /\
            (0 < d <-> lex_lt (version_numbers b) (version_numbers a)).
Proof.
  intros Ha Hb. destruct (compareVersion_numbers a b Ha Hb) as (Hcmp & La & Lb).
  eexists. split; [exact Hcmp |].
  split; [apply first_nonzero_zero; congruence |].
  split; [apply first_nonzero_neg; congruence |].
  rewrite <- (first_nonzero_neg (version_numbers b) (version_numbers a))
    by congruence.
  rewrite (first_nonzero_swap (version_numbers a) (version_numbers b)). lia.
Qed.

Lemma safe_1_9 : safe_version "1.9".
Proof.
  split; [apply regex_test_spec; vm_compute; reflexivity |].
  repeat constructor; vm_compute; reflexivity.
Qed.

Lemma safe_1_10 : safe_version "1.10".
Proof.
  split; [apply regex_test_spec; vm_compute; reflexivity |].
  repeat constructor; vm_compute; reflexivity.
Qed.

Lemma safe_1_2 : safe_version "1.2".
Proof.
  split; [apply regex_test_spec; vm_compute; reflexivity |].
  repeat constructor; vm_compute; reflexivity.
Qed.

(** X1, witness: [1.9] against [1.10]. *)
Lemma compareVersion_orders_numbers_witness :
  safe_version "1.9" /\ safe_version "1.10" /\
  exists d, compareVersion "1.9" "1.10" = inr (Finite d) /\
            (d < 0 <-> lex_lt (version_numbers "1.9") (version_numbers "1.10")).
Proof.
  split; [exact safe_1_9 |]. split; [exact safe_1_10 |].
  destruct (compareVersion_orders_numbers "1.9" "1.10" safe_1_9 safe_1_10)
    as (d & Hd & _ & Hlt & _).
  exists d. split; [exact Hd | exact Hlt].
Defined.

(** X2: on versions with components below [2 ^ 53] "compares less" is
    transitive and irreflexive, as sorting with the comparator needs. *)
Theorem compareVersion_transitive (a b c : string) :
  safe_version a -> safe_version b -> safe_version c ->
  (compares_less a b -> compares_less b c -> compares_less a c) /\
  ~ compares_less a a.
Proof.
  intros Ha Hb Hc.
  destruct (compareVersion_numbers a b Ha Hb) as (Hab & La & Lb).
  destruct (compareVersion_numbers b c Hb Hc) as (Hbc & _ & Lc).
  destruct (compareVersion_numbers a c Ha Hc) as (Hac & _ & _).
  destruct (compareVersion_numbers a a Ha Ha) as (Haa & _ & _).
  unfold compares_less. split.
  - intros (d1 & E1 & H1) (d2 & E2 & H2).
    rewrite Hab in E1. rewrite Hbc in E2.
    injection E1 as <-. injection E2 as <-.
    eexists. split; [exact Hac |].
    apply first_nonzero_neg; [congruence |].
    apply (lex_lt_trans _ (version_numbers b)).
    + apply first_nonzero_neg; [congruence | exact H1].
    + apply first_nonzero_neg; [congruence | exact H2].
  - intros (d & E & H). rewrite Haa in E. injection E as <-.
    apply first_nonzero_neg in H; [| reflexivity].
    exact (lex_lt_irrefl _ H).
Qed.

(** X2, witness: [1.2], [1.9], [1.10]. *)
Lemma compareVersion_transitive_witness :
  compares_less "1.2" "1.9" /\ compares_less "1.9" "1.10" /\
  compares_less "1.2" "1.10".
Proof.
  assert (H1 : compares_less "1.2" "1.9")
    by (exists (-7); split; [vm_compute; reflexivity | lia]).
  assert (H2 : compares_less "1.9" "1.10")
    by (exists (-1); split; [vm_compute; reflexivity | lia]).
  split; [exact H1 |]. split; [exact H2 |].
  exact (proj1 (compareVersion_transitive "1.2" "1.9" "1.10"
                  safe_1_2 safe_1_9 safe_1_10) H1 H2).
Defined.

Lemma pad_to_app (n : nat) (xs : list Number) :
  pad_to n xs = (xs ++ replicate (n - length xs) (Finite 0))%list.
Proof.
  unfold pad_to. destruct (Nat.ltb_spec (length xs) n) as [H|H]; [reflexivity |].
  replace (n - length xs)%nat with 0%nat by lia. simpl. now rewrite app_nil_r.
Qed.

(** Both operands as the loop sees them: each padded to the greater length. *)
Lemma padded_pair (xs ys : list Number) :
  let m := Nat.max (length xs) (length ys) in
  pad_to (length ys) xs = (xs ++ replicate (m - length xs) (Finite 0))%list /\
  pad_to (length (pad_to (length ys) xs)) ys
  = (ys ++ replicate (m - length ys) (Finite 0))%list.
Proof.
  cbv zeta. rewrite pad_to_length, !pad_to_app. split; do 2 f_equal; lia.
Qed.

Lemma compareParts_zeros (xs ys : list Number) (k : nat) :
  length xs = length ys ->
  compareParts (xs ++ replicate k (Finite 0)) (ys ++ replicate k (Finite 0))
  = compareParts xs ys.
Proof.
  revert ys. induction xs as [|x xs IH]; intros [|y ys] Hlen;
    try discriminate Hlen.
  - simpl. induction k as [|k IHk]; [reflexivity | exact IHk].
  - cbn [app compareParts tl].
    destruct (strict_ne_zero (sub x y)); [reflexivity |].
    apply IH. now injection Hlen.
Qed.

(** One more zero component on the left operand changes nothing. *)
Lemma compareParts_trailing_zero_l (xs ys : list Number) :
  let xs0 := (xs ++ [Finite 0])%list in
  compareParts (pad_to (length ys) xs0)
               (pad_to (length (pad_to (length ys) xs0)) ys)
  = compareParts (pad_to (length ys) xs)
                 (pad_to (length (pad_to (length ys) xs)) ys).
Proof.
  cbv zeta.
  destruct (padded_pair (xs ++ [Finite 0]) ys) as [-> ->].
  destruct (padded_pair xs ys) as [-> ->].
  rewrite length_app. cbn [length].
  set (m := Nat.max (length xs) (length ys)).
  set (m' := Nat.max (length xs + 1) (length ys)).
  assert (Hm : (m <= m')%nat) by (subst m m'; lia).
  assert (Hx : (length xs <= m)%nat) by (subst m; lia).
  assert (Hy : (length ys <= m)%nat) by (subst m; lia).
  assert (Hx' : (length xs + 1 <= m')%nat) by (subst m'; lia).
  clearbody m m'.
  rewrite <- (compareParts_zeros (xs ++ replicate (m - length xs) (Finite 0))
                                 (ys ++ replicate (m - length ys) (Finite 0))
                                 (m' - m))
    by (rewrite !length_app, !length_replicate; lia).
  rewrite <- !app_assoc. cbn [app].
  f_equal; f_equal.
  - change (Finite 0 :: replicate (m' - (length xs + 1)) (Finite 0))
      with (replicate (S (m' - (length xs + 1))) (Finite 0)).
    rewrite <- replicate_add. f_equal. lia.
  - rewrite <- replicate_add. f_equal. lia.
Qed.

Lemma compareParts_trailing_zero_r (xs ys : list Number) :
  let ys0 := (ys ++ [Finite 0])%list in
  compareParts (pad_to (length ys0) xs)
               (pad_to (length (pad_to (length ys0) xs)) ys0)
  = compareParts (pad_to (length ys) xs)
                 (pad_to (length (pad_to (length ys) xs)) ys).
Proof.
  cbv zeta.
  destruct (padded_pair xs (ys ++ [Finite 0])) as [-> ->].
  destruct (padded_pair xs ys) as [-> ->].
  rewrite length_app. cbn [length].
  set (m := Nat.max (length xs) (length ys)).
  set (m' := Nat.max (length xs) (length ys + 1)).
  assert (Hm : (m <= m')%nat) by (subst m m'; lia).
  assert (Hx : (length xs <= m)%nat) by (subst m; lia).
  assert (Hy : (length ys <= m)%nat) by (subst m; lia).
  assert (Hy' : (length ys + 1 <= m')%nat) by (subst m'; lia).
  clearbody m m'.
  rewrite <- (compareParts_zeros (xs ++ replicate (m - length xs) (Finite 0))
                                 (ys ++ replicate (m - length ys) (Finite 0))
                                 (m' - m))
    by (rewrite !length_app, !length_replicate; lia).
  rewrite <- !app_assoc. cbn [app].
  f_equal; f_equal.
  - rewrite <- replicate_add. f_equal. lia.
  - change (Finite 0 :: replicate (m' - (length ys + 1)) (Finite 0))
      with (replicate (S (m' - (length ys + 1))) (Finite 0)).
    rewrite <- replicate_add. f_equal. lia.
Qed.

Lemma join_snoc (c : string) (cs : list string) (d : string) :
  join "." ((c :: cs) ++ [d]) = join "." (c :: cs) +:+ "." +:+ d.
Proof.
  revert c. induction cs as [|e cs IH]; intros c.
  - reflexivity.
  - change (join "." ((c :: e :: cs) ++ [d]))
      with (c +:+ "." +:+ join "." ((e :: cs) ++ [d])).
    rewrite IH.
    change (join "." (c :: e :: cs)) with (c +:+ "." +:+ join "." (e :: cs)).
    now rewrite !append_assoc.
Qed.

(** The components of a version that stays valid with [.0] appended. *)
Lemma grammar_dot_zero (a : string) :
  version_grammar a -> version_grammar (a +:+ ".0") ->
  exists ca, a = join "." ca /\ split "." a = ca /\
             a +:+ ".0" = join "." (ca ++ ["0"]) /\
             split "." (a +:+ ".0") = (ca ++ ["0"])%list /\
             (1 <= length ca <= 3)%nat /\
             Forall (fun c => is_component c = true) ca.
Proof.
  intros Ha Ha0.
  destruct (grammar_split a Ha) as (ca & Ea & Sa & La & Ca).
  destruct (grammar_split _ Ha0) as (c0 & _ & S0 & L0 & _).
  destruct ca as [|c ca]; [simpl in La; lia |].
  assert (E0 : a +:+ ".0" = join "." ((c :: ca) ++ ["0"])).
  { rewrite join_snoc, <- Ea. reflexivity. }
  assert (C0 : Forall (fun c => is_component c = true) ((c :: ca) ++ ["0"])).
  { apply Forall_app. split; [exact Ca | repeat constructor]. }
  assert (S0' : split "." (a +:+ ".0") = ((c :: ca) ++ ["0"])%list).
  { rewrite E0. apply (split_join c (ca ++ ["0"])). exact C0. }
  exists (c :: ca). repeat split; try assumption; try lia.
  rewrite S0' in S0. subst c0. rewrite length_app in L0. simpl in *. lia.
Qed.

(** X3: appending the component [.0] to a version, where that keeps it inside
    the grammar, changes no result of a comparison, on either side and
    whatever the other operand is. *)
Theorem compareVersion_trailing_zero (a b : string) :
  version_grammar a -> version_grammar (a +:+ ".0") ->
  compareVersion (a +:+ ".0") b = compareVersion a b /\
  compareVersion b (a +:+ ".0") = compareVersion b a.
Proof.
  intros Ha Ha0.
  destruct (grammar_dot_zero a Ha Ha0) as (ca & _ & Sa & _ & S0 & _ & _).
  apply regex_test_spec in Ha, Ha0. unfold compareVersion.
  rewrite Ha, Ha0, Sa, S0. cbn [negb].
  destruct (regex_test b); cbn [negb]; [| split; reflexivity].
  rewrite map_app. change (map parseInt ["0"]) with [Finite 0].
  split; f_equal.
  - apply compareParts_trailing_zero_l.
  - apply compareParts_trailing_zero_r.
Qed.

(** X3, witness: [1.2] and [1.2.0] against [1.10]. *)
Lemma compareVersion_trailing_zero_witness :
  compareVersion "1.2.0" "1.10" = compareVersion "1.2" "1.10" /\
  compareVersion "1.10" "1.2.0" = compareVersion "1.10" "1.2".
Proof.
  apply (compareVersion_trailing_zero "1.2" "1.10").
  - apply regex_test_spec. vm_compute. reflexivity.
  - apply regex_test_spec. vm_compute. reflexivity.
Defined.

Lemma parseInt_leading_zero (c : string) :
  is_component c = true ->
  is_component (String "0" c) = true /\ parseInt (String "0" c) = parseInt c.
Proof.
  intros Hc. pose proof (component_digits c Hc) as Hd. split.
  - unfold is_component. simpl. exact Hd.
  - destruct c as [|d c]; [discriminate Hc |].
    simpl in Hd. apply andb_true_iff in Hd. destruct Hd as [Hd _].
    unfold parseInt. simpl. rewrite Hd. reflexivity.
Qed.

Lemma split_join_list (cs : list string) :
  cs <> [] -> Forall (fun c => is_component c = true) cs ->
  split "." (join "." cs) = cs.
Proof. destruct cs as [|c cs]; [congruence | intros _; apply split_join]. Qed.

(** X4: a zero put in front of a component of a valid version changes no
    result of a comparison, on either side and whatever the other operand
    is, so that [1.02] and [1.2] are the same version to the comparator. *)
Theorem compareVersion_leading_zero (pre post : list string) (c b : string) :
  let v := join "." (pre ++ c :: post) in
  let v0 := join "." (pre ++ String "0" c :: post) in
  (1 <= length (pre ++ c :: post) <= 4)%nat ->
  Forall (fun c => is_component c = true) (pre ++ c :: post) ->
  compareVersion v0 b = compareVersion v b /\
  compareVersion b v0 = compareVersion b v.
Proof.
  cbv zeta. intros Hlen Hall.
  apply Forall_app in Hall. destruct Hall as [Hpre Hrest].
  inversion Hrest as [|? ? Hc Hpost]; subst.
  destruct (parseInt_leading_zero c Hc) as [Hc0 Hparse].
  assert (Hall : Forall (fun c => is_component c = true) (pre ++ c :: post))
    by (apply Forall_app; split; [exact Hpre | now constructor]).
  assert (Hall0 : Forall (fun c => is_component c = true)
                    (pre ++ String "0" c :: post))
    by (apply Forall_app; split; [exact Hpre | now constructor]).
  assert (Hlen0 : (1 <= length (pre ++ String "0" c :: post) <= 4)%nat)
    by (rewrite length_app in *; exact Hlen).
  pose proof (proj2 (regex_test_spec _) (join_grammar _ Hlen Hall)) as Hv.
  pose proof (proj2 (regex_test_spec _) (join_grammar _ Hlen0 Hall0)) as Hv0.
  assert (Hmap : map parseInt (split "." (join "." (pre ++ String "0" c :: post)))
                 = map parseInt (split "." (join "." (pre ++ c :: post)))).
  { rewrite !split_join_list by (assumption || (destruct pre; discriminate)).
    rewrite !map_app. cbn [map]. now rewrite Hparse. }
  unfold compareVersion. rewrite Hv, Hv0, Hmap. split; reflexivity.
Qed.

(** X4, witness: [1.02] and [1.2] against [1.10]. *)
Lemma compareVersion_leading_zero_witness :
  compareVersion "1.02" "1.10" = compareVersion "1.2" "1.10" /\
  compareVersion "1.10" "1.02" = compareVersion "1.10" "1.2".
Proof.
  apply (compareVersion_leading_zero ["1"] [] "2" "1.10").
  - simpl. lia.
  - repeat constructor.
Defined.

(** ** The check: failures, frame, storage *)

Section CheckExtras.

Variable Script_name : string.
Variable LocalTZA : Z -> bool -> Z.

(** What a check does to the world, whichever way it ends. *)
Lemma updateAvailable_world (url : string) (interval : UpdateCheckInterval)
    (cur : string) (w : World) :
  let w' := snd (updateAvailable Script_name LocalTZA url interval cur w) in
  w' = advance_clock 4 w \/
  w' = with_call (CallFetch url) (advance_clock 4 w) \/
  exists c, w' = refreshed_world (storageKey Script_name) url c (advance_clock 4 w).
Proof.
  cbv zeta. rewrite updateAvailable_run, cached_after_check_run. cbv zeta.
  destruct (_ <=? _); [| left; reflexivity].
  rewrite refresh_run. cbn [network advance_clock].
  destruct (network w url) as [reason|r]; [right; left; reflexivity |].
  destruct (json r) as [vs|]; [| right; left; reflexivity].
  right. right. eexists. reflexivity.
Qed.

End CheckExtras.

(** X5: a check that has to fetch and whose request fails, or whose body is
    not JSON, throws the error of the host, whatever the current version is.
    By then the clock has been read four times and the fetch is the only
    call: no time stamp is taken, nothing is written to the storage or to the
    console, and [getCache] returns what it returned before. *)
Theorem updateAvailable_failed_check (Script_name : string)
    (LocalTZA : Z -> bool -> Z) (url : string) (interval : UpdateCheckInterval)
    (cur : string) (w : World) :
  lastChecked (default defaultCache (storage w !! storageKey Script_name))
    <= interval_date LocalTZA interval
         (clock w (reading_index interval + clock_reads w)%nat) ->
  match network w url with
  | NetworkFailure _ => True
  | Responded r => json r = None
  end ->
  let run := updateAvailable Script_name LocalTZA url interval cur w in
  fst run = inl (HostError match network w url with
                           | NetworkFailure reason => reason
                           | Responded _ => "json"
                           end) /\
  snd run = with_call (CallFetch url) (advance_clock 4 w) /\
  getCache Script_name (snd run) = (fst (getCache Script_name w), snd run).
Proof.
  intros Hstale Hnet. cbv zeta.
  rewrite updateAvailable_run, cached_after_check_run. cbv zeta.
  apply Z.leb_le in Hstale. rewrite Hstale.
  rewrite refresh_run. cbn [network advance_clock].
  destruct (network w url) as [reason|r].
  - repeat split.
  - rewrite Hnet. repeat split.
Qed.

(** X5, witness: a first check while the network is down. *)
Lemma updateAvailable_failed_check_witness :
  updateAvailable "app" utc manifest_url Daily "1.0" offline_world
  = (inl (HostError "offline"),
     with_call (CallFetch manifest_url) (advance_clock 4 offline_world)).
Proof.
  assert (Hstale :
    lastChecked (default defaultCache (storage offline_world !! storageKey "app"))
    <= interval_date utc Daily
         (clock offline_world
                (reading_index Daily + clock_reads offline_world)%nat))
    by (vm_compute; discriminate).
  destruct (updateAvailable_failed_check "app" utc manifest_url Daily "1.0"
              offline_world Hstale I) as (Hres & Hw & _).
  rewrite (surjective_pairing
             (updateAvailable "app" utc manifest_url Daily "1.0" offline_world)).
  rewrite Hres, Hw. reflexivity.
Defined.

(** X6: a check never touches the file system, never changes a record of
    the storage other than the one under its own key, and issues no call to
    the host besides the fetch of the manifest and the write of that
    record. *)
Theorem updateAvailable_frame (Script_name : string) (LocalTZA : Z -> bool -> Z)
    (url : string) (interval : UpdateCheckInterval) (cur : string) (w : World) :
  let w' := snd (updateAvailable Script_name LocalTZA url interval cur w) in
  files w' = files w /\
  (forall k, k <> storageKey Script_name -> storage w' !! k = storage w !! k) /\
  exists new, calls w' = (calls w ++ new)%list /\
    forall c, In c new ->
      c = CallFetch url \/
      exists v, c = CallStorageSet (storageKey Script_name) v.
Proof.
  cbv zeta.
  destruct (updateAvailable_world Script_name LocalTZA url interval cur w)
    as [-> | [-> | [c ->]]]; cbn [files storage calls advance_clock with_call
                                   refreshed_world storage_writable].
  - split; [reflexivity |]. split; [reflexivity |].
    exists []. split; [now rewrite app_nil_r | intros c []].
  - split; [reflexivity |]. split; [reflexivity |].
    exists [CallFetch url]. split; [reflexivity |].
    intros c [<- | []]. now left.
  - split; [reflexivity |]. split.
    + intros k Hk. destruct (storage_writable w); [| reflexivity].
      now rewrite lookup_insert_ne by congruence.
    + exists [CallFetch url; CallStorageSet (storageKey Script_name) c].
      split; [now rewrite <- app_assoc |].
      intros c' [<- | [<- | []]]; [now left | right; eauto].
Qed.

(** X7: when a stale cache is refreshed and the storage takes the write, the
    record under the key of the script is replaced as a whole by the versions
    of the manifest, stamped with the reading of the clock taken after the
    fetch; [getCache] then returns exactly that record, and nothing is
    written to the console. *)
Theorem updateAvailable_stores_manifest (Script_name : string)
    (LocalTZA : Z -> bool -> Z) (url : string) (interval : UpdateCheckInterval)
    (cur : string) (w : World) (r : Response) (vs : list VersionData) :
  lastChecked (default defaultCache (storage w !! storageKey Script_name))
    <= interval_date LocalTZA interval
         (clock w (reading_index interval + clock_reads w)%nat) ->
  network w url = Responded r -> json r = Some vs ->
  storage_writable w = true ->
  let w' := snd (updateAvailable Script_name LocalTZA url interval cur w) in
  fst (getCache Script_name w')
    = inr (Some {| lastChecked := clock w (4 + clock_reads w)%nat;
                   versions := vs |}) /\
  console w' = console w.
Proof.
  intros Hstale Hnet Hjson Hwr. cbv zeta.
  rewrite (updateAvailable_refreshes Script_name LocalTZA url interval cur w r vs
             Hstale Hnet Hjson).
  unfold getCache, Storage_get.
  cbn [fst snd storage console refreshed_world advance_clock storage_writable].
  rewrite Hwr. split; [now rewrite lookup_insert_eq | reflexivity].
Qed.

(** X7, witness: a first check that is answered with the manifest. *)
Lemma updateAvailable_stores_manifest_witness :
  let w := still_world None midnight (Responded manifest_ok) in
  fst (getCache "app"
         (snd (updateAvailable "app" utc manifest_url Daily "1.2" w)))
  = inr (Some {| lastChecked := midnight;
                 versions := [release "1.0"; release "2.0"; release "1.5"] |}).
Proof.
  cbv zeta.
  assert (Hstale :
    lastChecked (default defaultCache
                   (storage (still_world None midnight (Responded manifest_ok))
                      !! storageKey "app"))
    <= interval_date utc Daily
         (clock (still_world None midnight (Responded manifest_ok))
                (reading_index Daily
                 + clock_reads (still_world None midnight (Responded manifest_ok)))%nat))
    by (vm_compute; discriminate).
  exact (proj1 (updateAvailable_stores_manifest "app" utc manifest_url Daily "1.2"
                  (still_world None midnight (Responded manifest_ok))
                  manifest_ok _ Hstale eq_refl eq_refl eq_refl)).
Defined.

(** X8: when the storage refuses the write, the refresh is not lost for the
    caller: the check still returns the newer versions of the manifest it
    fetched; the storage keeps what it had, and one warning is written to the
    console. *)
Theorem updateAvailable_unwritable_storage (Script_name : string)
    (LocalTZA : Z -> bool -> Z) (url : string) (interval : UpdateCheckInterval)
    (cur : string) (w : World) (r : Response) (vs : list VersionData) :
  lastChecked (default defaultCache (storage w !! storageKey Script_name))
    <= interval_date LocalTZA interval
         (clock w (reading_index interval + clock_reads w)%nat) ->
  network w url = Responded r -> json r = Some vs ->
  storage_writable w = false ->
  let run := updateAvailable Script_name LocalTZA url interval cur w in
  fst run = newer_result cur vs /\
  storage (snd run) = storage w /\
  console (snd run)
    = (console w ++ ["WARNING: could not write update data to Storage"])%list.
Proof.
  intros Hstale Hnet Hjson Hwr. cbv zeta.
  rewrite (updateAvailable_refreshes Script_name LocalTZA url interval cur w r vs
             Hstale Hnet Hjson).
  cbn [fst snd storage console refreshed_world advance_clock storage_writable].
  rewrite Hwr. auto.
Qed.

(** X8, witness: a first check with a storage that takes no writes. *)
Lemma updateAvailable_unwritable_storage_witness :
  let w := read_only (still_world None midnight (Responded manifest_ok)) in
  let run := updateAvailable "app" utc manifest_url Daily "1.2" w in
  fst run = inr [release "2.0"; release "1.5"] /\ storage (snd run) = storage w.
Proof.
  cbv zeta.
  assert (Hstale :
    lastChecked (default defaultCache
                   (storage (read_only (still_world None midnight (Responded manifest_ok)))
                      !! storageKey "app"))
    <= interval_date utc Daily
         (clock (read_only (still_world None midnight (Responded manifest_ok)))
                (reading_index Daily
                 + clock_reads (read_only (still_world None midnight
                                             (Responded manifest_ok))))%nat))
    by (vm_compute; discriminate).
  destruct (updateAvailable_unwritable_storage "app" utc manifest_url Daily "1.2"
              (read_only (still_world None midnight (Responded manifest_ok)))
              manifest_ok _ Hstale eq_refl eq_refl eq_refl) as (Hres & Hst & _).
  split; [| exact Hst]. rewrite Hres. vm_compute. reflexivity.
Defined.

(** ** The check: late validation and the dates of the intervals *)

(** X9: the current version is validated only by the comparisons of the
    filter.  With an empty list of cached versions a check returns the empty
    list for every current version, valid or not; with a list that starts
    with a valid version an invalid current version makes the check throw the
    error that names parameter [b]. *)
Theorem updateAvailable_validates_late (Script_name : string)
    (LocalTZA : Z -> bool -> Z) (url : string) (interval : UpdateCheckInterval)
    (cur : string) (w w' : World) (c : StorageData) :
  cached_after_check Script_name LocalTZA url interval w = (inr c, w') ->
  (versions c = [] ->
     updateAvailable Script_name LocalTZA url interval cur w = (inr [], w')) /\
  (forall v rest, versions c = v :: rest ->
     version_grammar (version v) -> ~ version_grammar cur ->
     updateAvailable Script_name LocalTZA url interval cur w
     = (inl (Error (not_a_version "b" cur)), w')).
Proof.
  intros Hrun. rewrite updateAvailable_run, Hrun. split.
  - intros ->. reflexivity.
  - intros v rest -> Hv Hcur. now rewrite newer_result_invalid_current.
Qed.

(** X9, witness: an empty cache and the current version [next]. *)
Lemma updateAvailable_validates_late_witness :
  let w := cache_of_now (midnight + 5) [] in
  ~ version_grammar "next" /\
  updateAvailable "app" utc manifest_url Daily "next" w
  = (inr [], advance_clock 4 w).
Proof.
  cbv zeta. split.
  - intros H. apply regex_test_spec in H. vm_compute in H. discriminate.
  - assert (Hrun : cached_after_check "app" utc manifest_url Daily
                     (cache_of_now (midnight + 5) [])
                   = (inr {| lastChecked := midnight + 5; versions := [] |},
                      advance_clock 4 (cache_of_now (midnight + 5) [])))
      by (vm_compute; reflexivity).
    exact (proj1 (updateAvailable_validates_late "app" utc manifest_url Daily
                    "next" _ _ _ Hrun) eq_refl).
Defined.

Lemma days_in_previous_month_range (t : Z) :
  28 <= days_in_previous_month t <= 31.
Proof.
  unfold days_in_previous_month. cbv zeta.
  pose proof (InLeapYear_range t) as Hleap.
  destruct (month_cases _ (MonthFromTime_range t)) as
    [E|[E|[E|[E|[E|[E|[E|[E|[E|[E|[E|E]]]]]]]]]]]; rewrite E; simpl; lia.
Qed.

Section FixedOffsetDates.

Variable LocalTZA : Z -> bool -> Z.
Variable offset : Z.
Hypothesis fixed_offset : forall t b, LocalTZA t b = offset.

Lemma start_of_day_bounds (t : Z) :
  t - msPerDay < start_of_day LocalTZA t <= t.
Proof.
  rewrite (start_of_day_fixed _ offset fixed_offset).
  pose proof (TimeWithinDay_range (LocalTime LocalTZA t)). lia.
Qed.

Lemma start_of_day_days_before (k t : Z) :
  start_of_day LocalTZA (days_before LocalTZA k t)
  = start_of_day LocalTZA t - k * msPerDay.
Proof.
  rewrite (days_before_fixed _ offset fixed_offset).
  rewrite !(start_of_day_fixed _ offset fixed_offset).
  unfold LocalTime. rewrite !fixed_offset.
  replace (t - k * msPerDay + offset) with (t + offset + (- k) * msPerDay) by lia.
  unfold TimeWithinDay. rewrite Z.mod_add by (unfold msPerDay; lia). lia.
Qed.

(** The dates of the intervals, relative to the reading they come from. *)
Lemma interval_date_relations (now : Z) :
  interval_date LocalTZA EveryTime now = now /\
  now - msPerDay < interval_date LocalTZA Daily now <= now /\
  interval_date LocalTZA Weekly now
    = interval_date LocalTZA Daily now - 7 * msPerDay /\
  interval_date LocalTZA Daily now - 31 * msPerDay
    <= interval_date LocalTZA Monthly now
    <= interval_date LocalTZA Daily now - 28 * msPerDay.
Proof.
  rewrite !interval_date_cutoff. unfold cutoff.
  rewrite !start_of_day_days_before.
  pose proof (start_of_day_bounds now).
  pose proof (days_in_previous_month_range (LocalTime LocalTZA now)).
  unfold msPerDay in *. repeat split; lia.
Qed.

End FixedOffsetDates.

(** X10: in a time zone with a fixed offset the date an interval is compared
    with lies, relative to the reading of the clock it is built from: at the
    reading for "every time"; less than a day back for "daily"; seven days
    before the daily date for "weekly"; 28 to 31 days before the daily date
    for "monthly".  So the dates are ordered monthly, weekly, daily, every
    time, and a cache that is stale for a longer interval is stale for every
    shorter one. *)
Theorem interval_dates_ordered (LocalTZA : Z -> bool -> Z) (offset : Z)
    (now : Z) :
  (forall t b, LocalTZA t b = offset) ->
  interval_date LocalTZA EveryTime now = now /\
  now - msPerDay < interval_date LocalTZA Daily now <= now /\
  interval_date LocalTZA Weekly now
    = interval_date LocalTZA Daily now - 7 * msPerDay /\
  interval_date LocalTZA Daily now - 31 * msPerDay
    <= interval_date LocalTZA Monthly now
    <= interval_date LocalTZA Daily now - 28 * msPerDay /\
  interval_date LocalTZA Monthly now < interval_date LocalTZA Weekly now
    < interval_date LocalTZA Daily now.
Proof.
  intros Hfixed.
  destruct (interval_date_relations LocalTZA offset Hfixed now)
    as (He & Hd & Hw & Hm).
  unfold msPerDay in *. repeat split; lia.
Qed.

(** X10, witness: one hour ahead of UTC. *)
Lemma interval_dates_ordered_witness :
  (forall t b, utc_plus_1 t b = 3600000) /\
  interval_date utc_plus_1 Monthly midnight
    < interval_date utc_plus_1 Weekly midnight
    < interval_date utc_plus_1 Daily midnight.
Proof.
  split; [reflexivity |].
  exact (proj2 (proj2 (proj2 (proj2
           (interval_dates_ordered utc_plus_1 3600000 midnight
              (fun _ _ => eq_refl)))))).
Defined.

Section CheckDates.

Variable Script_name : string.
Variable LocalTZA : Z -> bool -> Z.
Variable offset : Z.
Hypothesis fixed_offset : forall t b, LocalTZA t b = offset.

Lemma interval_date_window (interval : UpdateCheckInterval) (now : Z) :
  now - 32 * msPerDay < interval_date LocalTZA interval now <= now.
Proof.
  destruct (interval_date_relations LocalTZA offset fixed_offset now)
    as (He & Hd & Hw & Hm).
  unfold msPerDay in *. destruct interval; lia.
Qed.

End CheckDates.

(** X11: in a time zone with a fixed offset, a check that finds no record in
    the storage fetches the manifest whatever the interval is, once the
    clock is 32 days past the epoch. *)
Theorem first_check_fetches (Script_name : string) (LocalTZA : Z -> bool -> Z)
    (offset : Z) (url : string) (interval : UpdateCheckInterval) (cur : string)
    (w : World) :
  (forall t b, LocalTZA t b = offset) ->
  storage w !! storageKey Script_name = None ->
  32 * msPerDay <= clock w (reading_index interval + clock_reads w)%nat ->
  exists rest,
    calls (snd (updateAvailable Script_name LocalTZA url interval cur w))
    = (calls w ++ CallFetch url :: rest)%list.
Proof.
  intros Hfixed Habsent Hclock.
  rewrite updateAvailable_run, cached_after_check_run. cbv zeta.
  rewrite Habsent. cbn [default defaultCache lastChecked].
  pose proof (interval_date_window LocalTZA offset Hfixed interval
                (clock w (reading_index interval + clock_reads w)%nat)) as Hwin.
  destruct (Z.leb_spec 0 (interval_date LocalTZA interval
              (clock w (reading_index interval + clock_reads w)%nat))); [| lia].
  rewrite refresh_run. cbn [network advance_clock].
  destruct (network w url) as [reason|r]; [exists []; reflexivity |].
  destruct (json r) as [vs|]; [| exists []; reflexivity].
  eexists. cbn. rewrite <- app_assoc. reflexivity.
Qed.

(** X11, witness: the first monthly check of [app], in 2024. *)
Lemma first_check_fetches_witness :
  let w := still_world None midnight (Responded manifest_ok) in
  exists rest,
    calls (snd (updateAvailable "app" utc manifest_url Monthly "1.0" w))
    = (calls w ++ CallFetch manifest_url :: rest)%list.
Proof.
  cbv zeta.
  apply (first_check_fetches "app" utc 0 manifest_url Monthly "1.0"
           (still_world None midnight (Responded manifest_ok))
           (fun _ _ => eq_refl) eq_refl).
  vm_compute. discriminate.
Defined.

(** X12: in a time zone with a fixed offset and with a clock that never runs
    backwards, the cache a check works on is never older than the cache it
    loaded: [lastChecked] does not decrease. *)
Theorem lastChecked_never_decreases (Script_name : string)
    (LocalTZA : Z -> bool -> Z) (offset : Z) (url : string)
    (interval : UpdateCheckInterval) (w w' : World) (c : StorageData) :
  (forall t b, LocalTZA t b = offset) ->
  (forall i j, (i <= j)%nat -> clock w i <= clock w j) ->
  cached_after_check Script_name LocalTZA url interval w = (inr c, w') ->
  lastChecked (default defaultCache (storage w !! storageKey Script_name))
    <= lastChecked c.
Proof.
  intros Hfixed Hmono. rewrite cached_after_check_run. cbv zeta.
  pose proof (interval_date_window LocalTZA offset Hfixed interval
                (clock w (reading_index interval + clock_reads w)%nat)) as Hwin.
  destruct (Z.leb_spec
              (lastChecked (default defaultCache (storage w !! storageKey Script_name)))
              (interval_date LocalTZA interval
                 (clock w (reading_index interval + clock_reads w)%nat))) as [Hle|Hgt].
  - rewrite refresh_run. cbn [network advance_clock clock clock_reads].
    destruct (network w url) as [reason|r]; [discriminate |].
    destruct (json r) as [vs|]; [| discriminate].
    intros [= <- _]. cbn [lastChecked].
    pose proof (Hmono (reading_index interval + clock_reads w)%nat
                      (4 + clock_reads w)%nat) as Hm.
    assert ((reading_index interval + clock_reads w <= 4 + clock_reads w)%nat)
      by (destruct interval; simpl; lia).
    specialize (Hm H).
    change (S (S (S (S (clock_reads w))))) with (4 + clock_reads w)%nat. lia.
  - intros [= <- _]. lia.
Qed.

(** X12, witness: a refresh of a cache written five milliseconds before
    midnight, checked at midnight. *)
Lemma lastChecked_never_decreases_witness :
  let w := still_world (Some {| lastChecked := midnight - 5; versions := [] |})
             midnight (Responded manifest_ok) in
  (forall i j, (i <= j)%nat -> clock w i <= clock w j) /\
  lastChecked (default defaultCache (storage w !! storageKey "app")) <= midnight.
Proof.
  cbv zeta.
  set (w := still_world (Some {| lastChecked := midnight - 5; versions := [] |})
              midnight (Responded manifest_ok)).
  set (c := {| lastChecked := midnight;
               versions := [release "1.0"; release "2.0"; release "1.5"] |}).
  assert (Hmono : forall i j, (i <= j)%nat -> clock w i <= clock w j)
    by (intros i j _; apply Z.le_refl).
  assert (Hrun : cached_after_check "app" utc manifest_url EveryTime w
                 = (inr c, refreshed_world (storageKey "app") manifest_url c
                             (advance_clock 4 w)))
    by (vm_compute; reflexivity).
  split; [exact Hmono |].
  exact (lastChecked_never_decreases "app" utc 0 manifest_url EveryTime w
           (refreshed_world (storageKey "app") manifest_url c (advance_clock 4 w))
           c (fun _ _ => eq_refl) Hmono Hrun).
Defined.

(** ** The download: early failures and a fresh staging directory *)

(** X13: a download that fails before anything is written (the request
    fails, the body cannot be read, or the conversion of the body yields
    null) throws the error of the host or, for the conversion, the plain
    error of the code; the only call on record is the fetch, so that no file
    has changed. *)
Theorem downloadUpdate_fails_early (temporaryDirectory : string)
    (Data_fromArrayBuffer : list Byte.byte -> option Data)
    (extract : Data -> gmap string Data -> option (gmap string Data))
    (url : string) (w : World) :
  let run := downloadUpdate temporaryDirectory Data_fromArrayBuffer extract url w in
  (forall reason, network w url = NetworkFailure reason ->
     run = (inl (HostError reason), with_call (CallFetch url) w)) /\
  (forall r, network w url = Responded r -> ok r = true -> bytes r = None ->
     run = (inl (HostError "bytes"), with_call (CallFetch url) w)) /\
  (forall r buffer, network w url = Responded r -> ok r = true ->
     bytes r = Some buffer -> Data_fromArrayBuffer buffer = None ->
     run = (inl (Error "Could not convert from ArrayBuffer to data"),
            with_call (CallFetch url) w)) /\
  files (with_call (CallFetch url) w) = files w.
Proof.
  cbv zeta. rewrite downloadUpdate_unfold. cbv zeta. repeat split.
  - intros reason ->. reflexivity.
  - intros r -> -> ->. reflexivity.
  - intros r buffer -> -> -> ->. reflexivity.
Qed.

(** X13, witness: the body arrives, its conversion fails. *)
Lemma downloadUpdate_fails_early_witness :
  let w := fresh_world (Responded archive_ok) in
  downloadUpdate "/tmp" no_conversion unpack_index "https://example.org/2.0.zip" w
  = (inl (Error "Could not convert from ArrayBuffer to data"),
     with_call (CallFetch "https://example.org/2.0.zip") w).
Proof.
  cbv zeta.
  exact (proj1 (proj2 (proj2
           (downloadUpdate_fails_early "/tmp" no_conversion unpack_index
              "https://example.org/2.0.zip" (fresh_world (Responded archive_ok)))))
           archive_ok [Byte.x03] eq_refl eq_refl eq_refl eq_refl).
Defined.

Section FreshDownload.

Variable temporaryDirectory : string.
Variable extract : Data -> gmap string Data -> option (gmap string Data).

Lemma unpack_fresh (data : Data) (entries : gmap string Data) (w : World) :
  files w !! unzippedFolder temporaryDirectory = None ->
  (forall es, files w !! Path_join temporaryDirectory "scriptUpdate.zip"
              <> Some (Directory es)) ->
  extract data ∅ = Some entries ->
  unpack temporaryDirectory extract data w
  = (inr (elements (dom entries)),
     with_files
       (<[unzippedFolder temporaryDirectory := Directory entries]>
          (<[unzippedFolder temporaryDirectory := Directory ∅]>
             (<[Path_join temporaryDirectory "scriptUpdate.zip" := File data]>
                (files w))))
       (with_call (CallUnzip (Path_join temporaryDirectory "scriptUpdate.zip")
                             (unzippedFolder temporaryDirectory))
          (with_files
             (<[unzippedFolder temporaryDirectory := Directory ∅]>
                (<[Path_join temporaryDirectory "scriptUpdate.zip" := File data]>
                   (files w)))
             (with_call (CallCreateDirectory (unzippedFolder temporaryDirectory))
                (with_files
                   (<[Path_join temporaryDirectory "scriptUpdate.zip" := File data]>
                      (files w))
                   (with_call (CallWriteAsData
                                 (Path_join temporaryDirectory "scriptUpdate.zip"))
                      w)))))).
Proof.
  intros Hst Hzip Hex. pose proof (archive_path_ne temporaryDirectory) as Hne.
  unfold unpack. cbv zeta. rewrite bind_run, writeAsData_run.
  assert (Hw : match files w !! Path_join temporaryDirectory "scriptUpdate.zip" with
               | Some (Directory _) =>
                   (inl (HostError "writeAsData"),
                    with_call (CallWriteAsData
                                 (Path_join temporaryDirectory "scriptUpdate.zip")) w)
               | _ => (inr tt,
                       with_files
                         (<[Path_join temporaryDirectory "scriptUpdate.zip" := File data]>
                            (files w))
                         (with_call (CallWriteAsData
                                       (Path_join temporaryDirectory "scriptUpdate.zip"))
                            w))
               end
               = (@inr Exn unit tt,
                  with_files
                    (<[Path_join temporaryDirectory "scriptUpdate.zip" := File data]>
                       (files w))
                    (with_call (CallWriteAsData
                                  (Path_join temporaryDirectory "scriptUpdate.zip"))
                       w))).
  { destruct (files w !! Path_join temporaryDirectory "scriptUpdate.zip")
      as [[d|es]|] eqn:E; try reflexivity. exfalso. exact (Hzip es eq_refl). }
  rewrite Hw. clear Hw.
  rewrite bind_run, existsSync_run. cbn [files with_files with_call].
  rewrite lookup_insert_ne by exact Hne. rewrite Hst.
  rewrite (bool_decide_eq_false_2 _ (is_Some_None (A:=Node))). cbn [negb].
  rewrite bind_run, createDirectory_run. cbn [files with_files with_call].
  rewrite lookup_insert_ne by exact Hne. rewrite Hst.
  rewrite bind_run, unzip_run. cbn [files with_files with_call].
  rewrite (lookup_insert_ne _ (unzippedFolder temporaryDirectory)
             (Path_join temporaryDirectory "scriptUpdate.zip")) by congruence.
  rewrite !lookup_insert_eq, Hex.
  rewrite readDirectory_run. cbn [files with_files with_call].
  now rewrite lookup_insert_eq.
Qed.

End FreshDownload.

(** X14: a download into a temporary directory that holds neither a staging
    directory nor a directory in the place of the archive succeeds when the
    response is a success, its body converts and the archive extracts: it
    writes the archive, creates the staging directory, extracts into it and
    returns the paths of what was extracted.  Afterwards the archive file
    holds the converted body, the staging directory holds the extracted
    entries, every other path is as before, and the host has seen the fetch,
    the write, the creation and the extraction, in this order. *)
Theorem downloadUpdate_fresh (temporaryDirectory : string)
    (Data_fromArrayBuffer : list Byte.byte -> option Data)
    (extract : Data -> gmap string Data -> option (gmap string Data))
    (url : string) (w : World) (r : Response) (buffer : list Byte.byte)
    (data : Data) (entries : gmap string Data) :
  let zip := Path_join temporaryDirectory "scriptUpdate.zip" in
  let staging := unzippedFolder temporaryDirectory in
  network w url = Responded r -> ok r = true -> bytes r = Some buffer ->
  Data_fromArrayBuffer buffer = Some data ->
  files w !! staging = None ->
  (forall es, files w !! zip <> Some (Directory es)) ->
  extract data ∅ = Some entries ->
  let run := downloadUpdate temporaryDirectory Data_fromArrayBuffer extract url w in
  (exists listing, fst run = inr listing /\
                   forall p, p ∈ listing <-> p ∈ dom entries) /\
  files (snd run) !! zip = Some (File data) /\
  files (snd run) !! staging = Some (Directory entries) /\
  (forall p, p <> zip -> p <> staging -> files (snd run) !! p = files w !! p) /\
  calls (snd run)
  = (calls w ++ [CallFetch url; CallWriteAsData zip;
                 CallCreateDirectory staging; CallUnzip zip staging])%list.
Proof.
  cbv zeta. intros Hnet Hok Hbytes Hconv Hst Hzip Hex.
  pose proof (archive_path_ne temporaryDirectory) as Hne.
  rewrite downloadUpdate_unfold. cbv zeta. rewrite Hnet, Hok, Hbytes, Hconv.
  rewrite (unpack_fresh temporaryDirectory extract data entries
             (with_call (CallFetch url) w) Hst Hzip Hex).
  cbn [fst snd files calls with_files with_call]. split; [| split; [| split; [| split]]].
  - eexists. split; [reflexivity |]. intros p. apply elem_of_elements.
  - rewrite !lookup_insert_ne by congruence. apply lookup_insert_eq.
  - apply lookup_insert_eq.
  - intros p Hp1 Hp2. now rewrite !lookup_insert_ne by congruence.
  - now rewrite <- !app_assoc.
Qed.

(** X14, witness: the first download of [app]. *)
Lemma downloadUpdate_fresh_witness :
  let w := fresh_world (Responded archive_ok) in
  let run := downloadUpdate "/tmp" Some unpack_index "https://example.org/2.0.zip" w in
  files (snd run) !! unzippedFolder "/tmp"
  = Some (Directory (<["index.tsx" := [Byte.x03]]> ∅)).
Proof.
  cbv zeta.
  assert (Hzip : forall es,
            files (fresh_world (Responded archive_ok))
              !! Path_join "/tmp" "scriptUpdate.zip" <> Some (Directory es))
    by (intros es; vm_compute; discriminate).
  exact (proj1 (proj2 (proj2
           (downloadUpdate_fresh "/tmp" Some unpack_index
              "https://example.org/2.0.zip" (fresh_world (Responded archive_ok))
              archive_ok [Byte.x03] [Byte.x03] (<["index.tsx" := [Byte.x03]]> ∅)
              eq_refl eq_refl eq_refl eq_refl eq_refl Hzip eq_refl)))).
Defined.

(** ** Clean-up, install and the whole cycle *)

(** One conditional removal of [cleanFiles]. *)
Lemma remove_if_exists (path : string) (w : World) :
  (present ← FileManager.exists_ path;
   if (present : bool) then FileManager.remove path else mret tt) w
  = (inr tt,
     if bool_decide (is_Some (files w !! path))
     then with_files (delete path (files w)) (with_call (CallRemove path) w)
     else w).
Proof.
  unfold FileManager.exists_. rewrite bind_run, existsSync_run.
  destruct (files w !! path) as [n|] eqn:E.
  - rewrite (bool_decide_eq_true_2 _ (ltac:(eauto) : is_Some (Some n))).
    now rewrite remove_run, E.
  - now rewrite (bool_decide_eq_false_2 _ (is_Some_None (A:=Node))).
Qed.

Lemma cleanFiles_unfold (dir tmp : string) (w : World) :
  cleanFiles dir tmp w
  = let w1 := if bool_decide (is_Some (files w !! scriptBackup dir))
              then with_files (delete (scriptBackup dir) (files w))
                     (with_call (CallRemove (scriptBackup dir)) w)
              else w in
    (inr tt,
     if bool_decide (is_Some (files w1 !! unzippedFolder tmp))
     then with_files (delete (unzippedFolder tmp) (files w1))
            (with_call (CallRemove (unzippedFolder tmp)) w1)
     else w1).
Proof.
  cbv zeta. unfold cleanFiles.
  unfold FileManager.exists_.
  rewrite bind_run, existsSync_run.
  destruct (files w !! scriptBackup dir) as [n|] eqn:E.
  - rewrite (bool_decide_eq_true_2 _ (ltac:(eauto) : is_Some (Some n))).
    rewrite bind_run, remove_run, E.
    exact (remove_if_exists (unzippedFolder tmp) _).
  - rewrite (bool_decide_eq_false_2 _ (is_Some_None (A:=Node))).
    exact (remove_if_exists (unzippedFolder tmp) w).
Qed.

Lemma cleanFiles_nothing (dir tmp : string) (w : World) :
  files w !! scriptBackup dir = None -> files w !! unzippedFolder tmp = None ->
  cleanFiles dir tmp w = (inr tt, w).
Proof.
  intros Hb Hs. rewrite cleanFiles_unfold. cbv zeta. rewrite Hb.
  rewrite (bool_decide_eq_false_2 _ (is_Some_None (A:=Node))). rewrite Hs.
  now rewrite (bool_decide_eq_false_2 _ (is_Some_None (A:=Node))).
Qed.

Lemma cleanFiles_files (dir tmp : string) (w : World) :
  exists w', cleanFiles dir tmp w = (inr tt, w') /\
    files w' = delete (unzippedFolder tmp) (delete (scriptBackup dir) (files w)) /\
    storage w' = storage w /\ console w' = console w /\
    calls w' = (calls w ++ clean_calls (scriptBackup dir) (unzippedFolder tmp)
                             (files w))%list.
Proof.
  rewrite cleanFiles_unfold. cbv zeta. unfold clean_calls.
  eexists. split; [reflexivity |].
  destruct (files w !! scriptBackup dir) as [n|] eqn:Hb.
  - rewrite (bool_decide_eq_true_2 _ (ltac:(eauto) : is_Some (Some n))).
    cbn [files with_files with_call].
    destruct (delete (scriptBackup dir) (files w) !! unzippedFolder tmp) as [m|] eqn:Hs.
    + rewrite (bool_decide_eq_true_2 _ (ltac:(eauto) : is_Some (Some m))).
      cbn [files storage console calls with_files with_call].
      split; [reflexivity |]. split; [reflexivity |]. split; [reflexivity |].
      now rewrite <- app_assoc.
    + rewrite (bool_decide_eq_false_2 _ (is_Some_None (A:=Node))).
      cbn [files storage console calls with_files with_call].
      split; [now rewrite (delete_id _ (unzippedFolder tmp)) |].
      split; [reflexivity |]. split; [reflexivity |].
      now rewrite app_nil_r.
  - rewrite (bool_decide_eq_false_2 _ (is_Some_None (A:=Node))).
    rewrite (delete_id (files w) (scriptBackup dir)) by exact Hb.
    destruct (files w !! unzippedFolder tmp) as [m|] eqn:Hs.
    + rewrite (bool_decide_eq_true_2 _ (ltac:(eauto) : is_Some (Some m))).
      cbn [files storage console calls with_files with_call app].
      split; [reflexivity |]. split; [reflexivity |]. split; reflexivity.
    + rewrite (bool_decide_eq_false_2 _ (is_Some_None (A:=Node))).
      cbn [app]. rewrite app_nil_r.
      split; [now rewrite delete_id |]. split; [reflexivity |]. split; reflexivity.
Qed.

(** X15: [cleanFiles] never fails.  It removes the backup and the staging
    directory and nothing else: every other path, the archive of the download
    among them, keeps its content, the storage is untouched, and the only
    calls it issues are removals of these two paths, each only if the path
    exists.  A second run finds nothing to do: it issues no call and leaves
    the world as it is. *)
Theorem cleanFiles_removes_only (Script_directory temporaryDirectory : string)
    (w : World) :
  let backup := scriptBackup Script_directory in
  let staging := unzippedFolder temporaryDirectory in
  exists w',
    cleanFiles Script_directory temporaryDirectory w = (inr tt, w') /\
    files w' = delete staging (delete backup (files w)) /\
    files w' !! backup = None /\ files w' !! staging = None /\
    (forall p, p <> backup -> p <> staging -> files w' !! p = files w !! p) /\
    files w' !! Path_join temporaryDirectory "scriptUpdate.zip"
    = (if decide (Path_join temporaryDirectory "scriptUpdate.zip" = backup)
       then None
       else files w !! Path_join temporaryDirectory "scriptUpdate.zip") /\
    storage w' = storage w /\
    (exists new, calls w' = (calls w ++ new)%list /\
       forall c, In c new ->
         (c = CallRemove backup /\ is_Some (files w !! backup)) \/
         (c = CallRemove staging /\ is_Some (files w !! staging))) /\
    cleanFiles Script_directory temporaryDirectory w' = (inr tt, w').
Proof.
  cbv zeta.
  destruct (cleanFiles_files Script_directory temporaryDirectory w)
    as (w' & Hrun & Hf & Hs & _ & Hc).
  assert (Hb' : files w' !! scriptBackup Script_directory = None).
  { rewrite Hf. apply lookup_delete_None. right. apply lookup_delete_eq. }
  assert (Hs' : files w' !! unzippedFolder temporaryDirectory = None).
  { rewrite Hf. apply lookup_delete_eq. }
  exists w'. split; [exact Hrun |]. split; [exact Hf |].
  split; [exact Hb' |]. split; [exact Hs' |].
  split; [| split; [| split; [exact Hs | split]]].
  - intros p Hp1 Hp2. rewrite Hf. now rewrite !lookup_delete_ne by congruence.
  - pose proof (archive_path_ne temporaryDirectory) as Hne.
    destruct (decide (Path_join temporaryDirectory "scriptUpdate.zip"
                      = scriptBackup Script_directory)) as [E|E].
    + now rewrite E.
    + rewrite Hf. now rewrite !lookup_delete_ne by congruence.
  - eexists. split; [exact Hc |]. unfold clean_calls. intros c Hin.
    apply in_app_or in Hin. destruct Hin as [Hin|Hin].
    + destruct (bool_decide (is_Some (files w !! scriptBackup Script_directory)))
        eqn:E; [| destruct Hin].
      destruct Hin as [<-|[]]. left. split; [reflexivity |].
      now apply bool_decide_eq_true_1 in E.
    + destruct (bool_decide (is_Some (delete (scriptBackup Script_directory) (files w)
                                        !! unzippedFolder temporaryDirectory)))
        eqn:E; [| destruct Hin].
      destruct Hin as [<-|[]]. right. split; [reflexivity |].
      apply bool_decide_eq_true_1 in E. destruct E as [n E].
      apply lookup_delete_Some in E. destruct E as [_ E]. eauto.
  - now apply cleanFiles_nothing.
Qed.

(** What a successful install leaves. *)
Lemma install_run (dir tmp : string) (w : World) (old new : Node) :
  unzippedFolder tmp <> dir -> unzippedFolder tmp <> scriptBackup dir ->
  files w !! dir = Some old -> files w !! scriptBackup dir = None ->
  files w !! unzippedFolder tmp = Some new ->
  installDownloadedScript dir tmp w
  = (inr tt,
     with_files
       (<[dir := new]>
          (delete (unzippedFolder tmp)
             (<[scriptBackup dir := old]> (delete dir (files w)))))
       (with_call (CallRename (unzippedFolder tmp) dir)
          (with_call (CallRename dir (scriptBackup dir)) w))).
Proof.
  intros Hsl Hsb Hlive Hbackup Hstaging. pose proof (scriptBackup_ne dir) as Hbl.
  unfold installDownloadedScript. rewrite bind_run, rename_run, Hlive, Hbackup.
  rewrite rename_run. cbn [files with_files with_call].
  rewrite (lookup_insert_ne _ (scriptBackup dir) (unzippedFolder tmp)) by congruence.
  rewrite (lookup_delete_ne _ dir (unzippedFolder tmp)) by congruence.
  rewrite Hstaging.
  rewrite (lookup_insert_ne _ (scriptBackup dir) dir) by exact Hbl.
  rewrite lookup_delete_eq. reflexivity.
Qed.

Lemma install_failure (dir tmp : string) (w : World) :
  unzippedFolder tmp <> dir -> unzippedFolder tmp <> scriptBackup dir ->
  ~ (is_Some (files w !! dir) /\ files w !! scriptBackup dir = None /\
     is_Some (files w !! unzippedFolder tmp)) ->
  exists w', installDownloadedScript dir tmp w = (inl (HostError "rename"), w').
Proof.
  intros Hsl Hsb Hnot. pose proof (scriptBackup_ne dir) as Hbl.
  unfold installDownloadedScript. rewrite bind_run, rename_run.
  destruct (files w !! dir) as [old|] eqn:Hlive; [| eauto].
  destruct (files w !! scriptBackup dir) as [b|] eqn:Hbackup; [eauto |].
  rewrite rename_run. cbn [files with_files with_call].
  rewrite (lookup_insert_ne _ (scriptBackup dir) (unzippedFolder tmp)) by congruence.
  rewrite (lookup_delete_ne _ dir (unzippedFolder tmp)) by congruence.
  destruct (files w !! unzippedFolder tmp) as [new|] eqn:Hstaging; [| eauto].
  exfalso. apply Hnot. eauto.
Qed.

(** X16: over a file system whose rename fails when the source is missing
    or the target exists, and for a staging directory that is neither the
    live directory nor the backup path, [installDownloadedScript] succeeds
    exactly when the live directory exists, the backup path is free and the
    staging directory exists; otherwise it fails with the error of the
    rename.  After a successful install the backup path is taken, so that a
    second install without a clean-up in between fails at its first rename
    and changes no file. *)
Theorem install_succeeds_iff (Script_directory temporaryDirectory : string)
    (w : World) :
  let live := Script_directory in
  let backup := scriptBackup Script_directory in
  let staging := unzippedFolder temporaryDirectory in
  let install := installDownloadedScript Script_directory temporaryDirectory in
  staging <> live -> staging <> backup ->
  ((exists w', install w = (inr tt, w')) <->
   (is_Some (files w !! live) /\ files w !! backup = None /\
    is_Some (files w !! staging))) /\
  ((forall w', install w <> (inr tt, w')) ->
   exists w', install w = (inl (HostError "rename"), w')) /\
  (forall w1, install w = (inr tt, w1) ->
     install w1 = (inl (HostError "rename"), with_call (CallRename live backup) w1)).
Proof.
  cbv zeta. intros Hsl Hsb. pose proof (scriptBackup_ne Script_directory) as Hbl.
  assert (Hiff : (exists w', installDownloadedScript Script_directory
                               temporaryDirectory w = (inr tt, w')) <->
                 (is_Some (files w !! Script_directory) /\
                  files w !! scriptBackup Script_directory = None /\
                  is_Some (files w !! unzippedFolder temporaryDirectory))).
  { split.
    - intros [w' Hrun].
      destruct (install_promotes _ _ _ _ _ Hsl Hsb Hrun) as [_ Hst].
      unfold installDownloadedScript in Hrun. rewrite bind_run, rename_run in Hrun.
      destruct (files w !! Script_directory) as [old|]; [| discriminate].
      destruct (files w !! scriptBackup Script_directory); [discriminate |].
      eauto.
    - intros ([old Hl] & Hb & [new Hs]).
      eexists. exact (install_run _ _ _ old new Hsl Hsb Hl Hb Hs). }
  split; [exact Hiff |]. split.
  - intros Hno. apply install_failure; try assumption.
    intros Hall. apply Hiff in Hall. destruct Hall as [w' Hrun].
    exact (Hno w' Hrun).
  - intros w1 Hrun.
    assert (Hall := proj1 Hiff (ex_intro _ w1 Hrun)).
    destruct Hall as ([old Hl] & Hb & [new Hs]).
    rewrite (install_run _ _ _ old new Hsl Hsb Hl Hb Hs) in Hrun.
    injection Hrun as <-.
    unfold installDownloadedScript. rewrite bind_run, rename_run.
    cbn [files with_files with_call].
    rewrite lookup_insert_eq.
    rewrite (lookup_insert_ne _ Script_directory (scriptBackup Script_directory))
      by congruence.
    rewrite (lookup_delete_ne _ (unzippedFolder temporaryDirectory)
               (scriptBackup Script_directory)) by congruence.
    rewrite lookup_insert_eq. reflexivity.
Qed.

(** X16, witness: [app] with a staged download. *)
Lemma install_succeeds_iff_witness :
  exists w', installDownloadedScript "/scripts/app" "/tmp"
               (installed_world (Responded archive_ok)) = (inr tt, w').
Proof.
  assert (H1 : unzippedFolder "/tmp" <> "/scripts/app") by (vm_compute; discriminate).
  assert (H2 : unzippedFolder "/tmp" <> scriptBackup "/scripts/app")
    by (vm_compute; discriminate).
  assert (Hl : is_Some (files (installed_world (Responded archive_ok))
                          !! "/scripts/app"))
    by (vm_compute; eauto).
  assert (Hb : files (installed_world (Responded archive_ok))
                 !! scriptBackup "/scripts/app" = None)
    by (vm_compute; reflexivity).
  assert (Hs : is_Some (files (installed_world (Responded archive_ok))
                          !! unzippedFolder "/tmp"))
    by (vm_compute; eauto).
  exact (proj2 (proj1 (install_succeeds_iff "/scripts/app" "/tmp"
                         (installed_world (Responded archive_ok)) H1 H2))
           (conj Hl (conj Hb Hs))).
Defined.

(** X17: a successful install followed by [cleanFiles] leaves the staged
    directory at the live path, no backup and no staging directory, and
    every other path as it was before the install; the old live directory is
    gone.  The calls are the two renames and the removal of the backup. *)
Theorem install_then_clean (Script_directory temporaryDirectory : string)
    (w w1 : World) :
  let live := Script_directory in
  let backup := scriptBackup Script_directory in
  let staging := unzippedFolder temporaryDirectory in
  staging <> live -> staging <> backup ->
  installDownloadedScript Script_directory temporaryDirectory w = (inr tt, w1) ->
  exists w2,
    cleanFiles Script_directory temporaryDirectory w1 = (inr tt, w2) /\
    files w2 !! live = files w !! staging /\
    is_Some (files w !! staging) /\
    files w2 !! backup = None /\ files w2 !! staging = None /\
    (forall p, p <> live -> p <> backup -> p <> staging ->
       files w2 !! p = files w !! p) /\
    calls w2 = (calls w ++ [CallRename live backup; CallRename staging live;
                            CallRemove backup])%list.
Proof.
  cbv zeta. intros Hsl Hsb Hrun. pose proof (scriptBackup_ne Script_directory) as Hbl.
  destruct (install_promotes _ _ _ _ _ Hsl Hsb Hrun) as [_ [new Hs]].
  assert (Hlb : exists old, files w !! Script_directory = Some old /\
                            files w !! scriptBackup Script_directory = None).
  { unfold installDownloadedScript in Hrun. rewrite bind_run, rename_run in Hrun.
    destruct (files w !! Script_directory) as [old|]; [| discriminate].
    destruct (files w !! scriptBackup Script_directory); [discriminate |]. eauto. }
  destruct Hlb as (old & Hl & Hb).
  rewrite (install_run _ _ _ old new Hsl Hsb Hl Hb Hs) in Hrun.
  injection Hrun as <-.
  destruct (cleanFiles_files Script_directory temporaryDirectory
              (with_files
                 (<[Script_directory := new]>
                    (delete (unzippedFolder temporaryDirectory)
                       (<[scriptBackup Script_directory := old]>
                          (delete Script_directory (files w)))))
                 (with_call (CallRename (unzippedFolder temporaryDirectory)
                               Script_directory)
                    (with_call (CallRename Script_directory
                                  (scriptBackup Script_directory)) w))))
    as (w2 & Hclean & Hf & _ & _ & Hc).
  cbn [files calls with_files with_call] in Hf, Hc.
  exists w2. split; [exact Hclean |]. rewrite Hf, Hs.
  split; [| split; [eauto | split; [| split; [| split]]]].
  - rewrite !lookup_delete_ne by congruence. apply lookup_insert_eq.
  - apply lookup_delete_None. right. apply lookup_delete_eq.
  - apply lookup_delete_eq.
  - intros p Hp1 Hp2 Hp3.
    rewrite !lookup_delete_ne by congruence.
    rewrite lookup_insert_ne by congruence.
    rewrite lookup_delete_ne by congruence.
    rewrite lookup_insert_ne by congruence.
    now rewrite lookup_delete_ne by congruence.
  - rewrite Hc. unfold clean_calls.
    rewrite (lookup_insert_ne _ Script_directory (scriptBackup Script_directory))
      by congruence.
    rewrite (lookup_delete_ne _ (unzippedFolder temporaryDirectory)
               (scriptBackup Script_directory)) by congruence.
    rewrite lookup_insert_eq.
    rewrite (bool_decide_eq_true_2 _ (ltac:(eauto) : is_Some (Some old))).
    rewrite (lookup_delete_ne _ (scriptBackup Script_directory)
               (unzippedFolder temporaryDirectory)) by congruence.
    rewrite (lookup_insert_ne _ Script_directory (unzippedFolder temporaryDirectory))
      by congruence.
    rewrite lookup_delete_eq.
    rewrite (bool_decide_eq_false_2 _ (is_Some_None (A:=Node))).
    cbn [app]. now rewrite <- !app_assoc.
Qed.

(** X17, witness: [app] with a staged download. *)
Lemma install_then_clean_witness :
  exists w1 w2,
    installDownloadedScript "/scripts/app" "/tmp"
      (installed_world (Responded archive_ok)) = (inr tt, w1) /\
    cleanFiles "/scripts/app" "/tmp" w1 = (inr tt, w2) /\
    files w2 !! "/scripts/app" = Some (Directory {[ "old.tsx" := [Byte.x02] ]}).
Proof.
  assert (H1 : unzippedFolder "/tmp" <> "/scripts/app") by (vm_compute; discriminate).
  assert (H2 : unzippedFolder "/tmp" <> scriptBackup "/scripts/app")
    by (vm_compute; discriminate).
  set (w := installed_world (Responded archive_ok)).
  set (w1 := snd (installDownloadedScript "/scripts/app" "/tmp" w)).
  assert (Hrun : installDownloadedScript "/scripts/app" "/tmp" w = (inr tt, w1))
    by (vm_compute; reflexivity).
  assert (Hs : files w !! unzippedFolder "/tmp"
               = Some (Directory {[ "old.tsx" := [Byte.x02] ]}))
    by (vm_compute; reflexivity).
  destruct (install_then_clean "/scripts/app" "/tmp" w w1 H1 H2 Hrun)
    as (w2 & Hclean & Hlive & _).
  exists w1, w2. split; [exact Hrun |]. split; [exact Hclean |].
  now rewrite Hlive.
Defined.

(** X18: the update cycle.  In a world where the script is installed, no
    backup and no staging directory exist, the response is a success whose
    body converts and whose archive extracts, the download, the install and
    the clean-up run through without an error.  Afterwards the live path
    holds the extracted entries, backup and staging directory are gone, every
    other path is as before, and the archive is still in the temporary
    directory: no step removes it. *)
Theorem update_cycle_installs (Script_directory temporaryDirectory : string)
    (Data_fromArrayBuffer : list Byte.byte -> option Data)
    (extract : Data -> gmap string Data -> option (gmap string Data))
    (url : string) (w : World) (r : Response) (buffer : list Byte.byte)
    (data : Data) (entries : gmap string Data) (old : Node) :
  let live := Script_directory in
  let backup := scriptBackup Script_directory in
  let staging := unzippedFolder temporaryDirectory in
  let zip := Path_join temporaryDirectory "scriptUpdate.zip" in
  staging <> live -> staging <> backup -> zip <> live -> zip <> backup ->
  network w url = Responded r -> ok r = true -> bytes r = Some buffer ->
  Data_fromArrayBuffer buffer = Some data -> extract data ∅ = Some entries ->
  files w !! live = Some old -> files w !! backup = None ->
  files w !! staging = None -> (forall es, files w !! zip <> Some (Directory es)) ->
  exists w',
    update_cycle Script_directory temporaryDirectory Data_fromArrayBuffer extract
      url w = (inr tt, w') /\
    files w' !! live = Some (Directory entries) /\
    files w' !! backup = None /\ files w' !! staging = None /\
    files w' !! zip = Some (File data) /\
    (forall p, p <> live -> p <> backup -> p <> staging -> p <> zip ->
       files w' !! p = files w !! p) /\
    calls w'
    = (calls w ++ [CallFetch url; CallWriteAsData zip; CallCreateDirectory staging;
                   CallUnzip zip staging; CallRename live backup;
                   CallRename staging live; CallRemove backup])%list.
Proof.
  cbv zeta. intros Hsl Hsb Hzl Hzb Hnet Hok Hbytes Hconv Hex Hl Hb Hs Hz.
  pose proof (archive_path_ne temporaryDirectory) as Hzs.
  pose proof (scriptBackup_ne Script_directory) as Hbl.
  unfold update_cycle. rewrite bind_run, downloadUpdate_unfold. cbv zeta.
  rewrite Hnet, Hok, Hbytes, Hconv.
  rewrite (unpack_fresh temporaryDirectory extract data entries
             (with_call (CallFetch url) w) Hs Hz Hex).
  rewrite bind_run.
  rewrite (install_run Script_directory temporaryDirectory _ old (Directory entries)
             Hsl Hsb).
  - match goal with
    | |- context [cleanFiles _ _ ?w1] =>
        destruct (cleanFiles_files Script_directory temporaryDirectory w1)
          as (w2 & Hclean & Hf & _ & _ & Hc)
    end.
    cbn [files calls with_files with_call] in Hf, Hc.
    exists w2. split; [exact Hclean |]. rewrite Hf.
    split; [| split; [| split; [| split; [| split]]]].
    + rewrite !lookup_delete_ne by congruence. apply lookup_insert_eq.
    + apply lookup_delete_None. right. apply lookup_delete_eq.
    + apply lookup_delete_eq.
    + rewrite !lookup_delete_ne by congruence.
      rewrite lookup_insert_ne by congruence.
      rewrite lookup_delete_ne by congruence.
      rewrite lookup_insert_ne by congruence.
      rewrite lookup_delete_ne by congruence.
      rewrite !lookup_insert_ne by congruence.
      apply lookup_insert_eq.
    + intros p Hp1 Hp2 Hp3 Hp4.
      rewrite !lookup_delete_ne by congruence.
      rewrite lookup_insert_ne by congruence.
      rewrite lookup_delete_ne by congruence.
      rewrite lookup_insert_ne by congruence.
      rewrite lookup_delete_ne by congruence.
      now rewrite !lookup_insert_ne by congruence.
    + rewrite Hc. unfold clean_calls.
      rewrite (lookup_insert_ne _ Script_directory (scriptBackup Script_directory))
        by congruence.
      rewrite (lookup_delete_ne _ (unzippedFolder temporaryDirectory)
                 (scriptBackup Script_directory)) by congruence.
      rewrite lookup_insert_eq.
      rewrite (bool_decide_eq_true_2 _ (ltac:(eauto) : is_Some (Some old))).
      rewrite (lookup_delete_ne _ (scriptBackup Script_directory)
                 (unzippedFolder temporaryDirectory)) by congruence.
      rewrite (lookup_insert_ne _ Script_directory
                 (unzippedFolder temporaryDirectory)) by congruence.
      rewrite lookup_delete_eq.
      rewrite (bool_decide_eq_false_2 _ (is_Some_None (A:=Node))).
      cbn [app]. now rewrite <- !app_assoc.
  - cbn [files with_files with_call].
    now rewrite !lookup_insert_ne by congruence.
  - cbn [files with_files with_call].
    now rewrite !lookup_insert_ne by congruence.
  - cbn [files with_files with_call]. apply lookup_insert_eq.
Qed.

(** X18, witness: the first update of [app]. *)
Lemma update_cycle_installs_witness :
  exists w',
    update_cycle "/scripts/app" "/tmp" Some unpack_index
      "https://example.org/2.0.zip" (fresh_world (Responded archive_ok))
    = (inr tt, w') /\
    files w' !! "/scripts/app"
    = Some (Directory (<["index.tsx" := [Byte.x03]]> ∅)).
Proof.
  set (w := fresh_world (Responded archive_ok)).
  assert (H1 : unzippedFolder "/tmp" <> "/scripts/app") by (vm_compute; discriminate).
  assert (H2 : unzippedFolder "/tmp" <> scriptBackup "/scripts/app")
    by (vm_compute; discriminate).
  assert (H3 : Path_join "/tmp" "scriptUpdate.zip" <> "/scripts/app")
    by (vm_compute; discriminate).
  assert (H4 : Path_join "/tmp" "scriptUpdate.zip" <> scriptBackup "/scripts/app")
    by (vm_compute; discriminate).
  assert (Hnet : network w "https://example.org/2.0.zip" = Responded archive_ok)
    by reflexivity.
  assert (Hl : files w !! "/scripts/app"
               = Some (Directory {[ "index.tsx" := [Byte.x01] ]}))
    by (vm_compute; reflexivity).
  assert (Hb : files w !! scriptBackup "/scripts/app" = None)
    by (vm_compute; reflexivity).
  assert (Hs : files w !! unzippedFolder "/tmp" = None) by (vm_compute; reflexivity).
  assert (Hz : forall es, files w !! Path_join "/tmp" "scriptUpdate.zip"
                          <> Some (Directory es))
    by (intros es; vm_compute; discriminate).
  destruct (update_cycle_installs "/scripts/app" "/tmp" Some unpack_index
              "https://example.org/2.0.zip" w archive_ok [Byte.x03] [Byte.x03]
              (<["index.tsx" := [Byte.x03]]> ∅)
              (Directory {[ "index.tsx" := [Byte.x01] ]})
              H1 H2 H3 H4 Hnet eq_refl eq_refl eq_refl eq_refl Hl Hb Hs Hz)
    as (w' & Hrun & Hlive & _).
  exists w'. split; [exact Hrun | exact Hlive].
Defined.

(** ** The handlers of the view *)

Import MainView.

Lemma last_snoc_url (l : list VersionData) (v : VersionData) :
  last_url (l ++ [v]) = mret (url v).
Proof. unfold last_url. now rewrite last_snoc. Qed.

Lemma cleanFiles_succeeds (dir tmp : string) (w : World) :
  fst (cleanFiles dir tmp w) = inr tt.
Proof. now destruct (cleanFiles_files dir tmp w) as (w' & -> & _). Qed.


(** X20: [download] never rejects and asks for the archive of the LAST entry
    of the versions it closed over, whatever their order.  With no version
    to show, as in a view just opened, reading the entry throws inside the
    handler: the error is written to the console, and the host world stays
    as it is, so that no request is made.  Otherwise the host world is the one [downloadUpdate] leaves for
    the URL of the last entry, and an error is written to the console exactly
    when that download threw.  The versions and the cache shown stay. *)
Theorem download_targets_last_entry (temporaryDirectory : string)
    (Data_fromArrayBuffer : list Byte.byte -> option Data)
    (extract : Data -> gmap string Data -> option (gmap string Data)) (u : Ui) :
  let download := download temporaryDirectory Data_fromArrayBuffer extract in
  (fst (download [] u) = inr tt /\
   host (snd (download [] u)) = host u /\
   reported (snd (download [] u)) = (reported u ++ [TypeError])%list /\
   presented (snd (download [] u)) = S (presented u) /\
   loading (view (snd (download [] u))) = false) /\
  (forall earlier v,
     let fetched := downloadUpdate temporaryDirectory Data_fromArrayBuffer extract
                      (url v) (host u) in
     let run := download (earlier ++ [v])%list u in
     fst run = inr tt /\
     host (snd run) = snd fetched /\
     loading (view (snd run)) = false /\
     versions_shown (view (snd run)) = versions_shown (view u) /\
     cache_shown (view (snd run)) = cache_shown (view u) /\
     match fst fetched with
     | inr _ => reported (snd run) = reported u /\ presented (snd run) = presented u
     | inl e => reported (snd run) = (reported u ++ [Thrown e])%list /\
                presented (snd run) = S (presented u)
     end) /\
  (forall w, host (snd (download (versions_shown (view (opened w))) (opened w))) = w).
Proof.
  cbv zeta. split; [repeat split |]. split; [| reflexivity].
  intros earlier v. unfold download. rewrite last_snoc_url.
  unfold try_catch, call, mbind, V_bind, mret, V_ret.
  cbn [setLoading set_view host view].
  destruct (downloadUpdate temporaryDirectory Data_fromArrayBuffer extract (url v)
              (host u)) as [[e|listing] w]; cbn; repeat split.
Qed.

(** X21: [clean] never rejects and never writes to the console: over a file
    system whose removal of an existing path succeeds, [cleanFiles] cannot
    throw, so the handler leaves the host world [cleanFiles] leaves, stops
    the progress indicator and changes nothing else. *)
Theorem clean_outcome (Script_directory temporaryDirectory : string) (u : Ui) :
  clean Script_directory temporaryDirectory u
  = (inr tt,
     {| host := snd (cleanFiles Script_directory temporaryDirectory (host u));
        view := {| versions_shown := versions_shown (view u);
                   interval_chosen := interval_chosen (view u);
                   version_entered := version_entered (view u);
                   cache_shown := cache_shown (view u);
                   loading := false |};
        reported := reported u; presented := presented u |}).
Proof.
  pose proof (cleanFiles_succeeds Script_directory temporaryDirectory (host u)) as H.
  unfold clean, try_catch, call, mbind, V_bind.
  cbn [setLoading set_view host view].
  destruct (cleanFiles Script_directory temporaryDirectory (host u)) as [[e|[]] w];
    [discriminate H |]. reflexivity.
Qed.

(** The calls of a download start with its fetch. *)
Lemma unpack_calls (tmp : string)
    (extract : Data -> gmap string Data -> option (gmap string Data))
    (data : Data) (w : World) :
  exists rest, calls (snd (unpack tmp extract data w)) = (calls w ++ rest)%list.
Proof.
  unfold unpack. cbv zeta. rewrite bind_run, writeAsData_run.
  assert (Hstep : forall w1 : World,
            (exists rest, calls w1 = (calls w ++ rest)%list) ->
            exists rest,
              calls (snd ((present ← FileManager.existsSync (unzippedFolder tmp);
                           (if negb (present : bool)
                            then FileManager.createDirectory (unzippedFolder tmp)
                            else mret tt) ;;
                           FileManager.unzip extract (Path_join tmp "scriptUpdate.zip")
                             (unzippedFolder tmp) ;;
                           FileManager.readDirectory (unzippedFolder tmp)) w1))
              = (calls w ++ rest)%list).
  { intros w1 [rest1 H1]. rewrite bind_run, existsSync_run.
    assert (Hlast : forall w2 : World,
              (exists rest, calls w2 = (calls w ++ rest)%list) ->
              exists rest,
                calls (snd ((FileManager.unzip extract (Path_join tmp "scriptUpdate.zip")
                               (unzippedFolder tmp) ;;
                             FileManager.readDirectory (unzippedFolder tmp)) w2))
                = (calls w ++ rest)%list).
    { intros w2 [rest2 H2]. rewrite bind_run, unzip_run.
      assert (Hcall : exists rest,
                calls (with_call (CallUnzip (Path_join tmp "scriptUpdate.zip")
                                    (unzippedFolder tmp)) w2)
                = (calls w ++ rest)%list).
      { eexists. cbn [calls with_call]. rewrite H2, <- app_assoc. reflexivity. }
      destruct (files w2 !! Path_join tmp "scriptUpdate.zip") as [[archive|?]|];
        cbn [snd]; try exact Hcall.
      destruct (files w2 !! unzippedFolder tmp) as [[?|entries]|];
        cbn [snd]; try exact Hcall.
      destruct (extract archive entries); cbn [snd]; try exact Hcall.
      rewrite readDirectory_run.
      match goal with
      | |- context [match ?x with _ => _ end] => destruct x as [[?|?]|]
      end; cbn [snd calls with_files]; exact Hcall. }
    destruct (bool_decide (is_Some (files w1 !! unzippedFolder tmp))); cbn [negb].
    - apply Hlast. eauto.
    - rewrite bind_run, createDirectory_run.
      destruct (files w1 !! unzippedFolder tmp) as [[?|?]|].
      + eexists. cbn [snd calls with_call]. rewrite H1, <- app_assoc. reflexivity.
      + apply Hlast. eexists. cbn [calls with_call].
        rewrite H1, <- app_assoc. reflexivity.
      + apply Hlast. eexists. cbn [calls with_call with_files].
        rewrite H1, <- app_assoc. reflexivity. }
  destruct (files w !! Path_join tmp "scriptUpdate.zip") as [[?|?]|].
  - apply Hstep. eexists. reflexivity.
  - eexists. reflexivity.
  - apply Hstep. eexists. reflexivity.
Qed.

Lemma downloadUpdate_calls (temporaryDirectory : string)
    (Data_fromArrayBuffer : list Byte.byte -> option Data)
    (extract : Data -> gmap string Data -> option (gmap string Data))
    (url : string) (w : World) :
  exists rest,
    calls (snd (downloadUpdate temporaryDirectory Data_fromArrayBuffer extract url w))
    = (calls w ++ CallFetch url :: rest)%list.
Proof.
  rewrite downloadUpdate_unfold. cbv zeta.
  assert (H0 : exists rest, calls (with_call (CallFetch url) w)
                            = (calls w ++ CallFetch url :: rest)%list)
    by (exists []; reflexivity).
  destruct (network w url) as [reason|r]; [exact H0 |].
  destruct (ok r); [| exact H0].
  destruct (bytes r) as [buffer|]; [| exact H0].
  destruct (Data_fromArrayBuffer buffer) as [data|]; [| exact H0].
  destruct (unpack_calls temporaryDirectory extract data (with_call (CallFetch url) w))
    as [rest Hrest].
  exists rest. rewrite Hrest. cbn [calls with_call]. now rewrite <- app_assoc.
Qed.

(** X22: a check followed by a download.  When the check returned the newer
    versions [earlier ++ [v]], the download that follows asks for the archive
    of [v], the last newer entry in the order of the manifest, in the world
    the check left. *)
Theorem download_after_check (Script_name temporaryDirectory : string)
    (LocalTZA : Z -> bool -> Z)
    (Data_fromArrayBuffer : list Byte.byte -> option Data)
    (extract : Data -> gmap string Data -> option (gmap string Data))
    (interval : UpdateCheckInterval) (version : string) (u : Ui)
    (earlier : list VersionData) (v : VersionData) (w : World) :
  updateAvailable Script_name LocalTZA "" interval version (host u)
  = (inr (earlier ++ [v])%list, w) ->
  let checked := snd (checkVersion Script_name LocalTZA interval version u) in
  let run := download temporaryDirectory Data_fromArrayBuffer extract
               (versions_shown (view checked)) checked in
  host (snd run)
  = snd (downloadUpdate temporaryDirectory Data_fromArrayBuffer extract (url v) w) /\
  exists rest, calls (host (snd run)) = (calls w ++ CallFetch (url v) :: rest)%list.
Proof.
  cbv zeta. intros Hcheck.
  assert (Hhost : host (snd (download temporaryDirectory Data_fromArrayBuffer extract
                               (versions_shown
                                  (view (snd (checkVersion Script_name LocalTZA
                                                interval version u))))
                               (snd (checkVersion Script_name LocalTZA interval
                                       version u))))
                  = snd (downloadUpdate temporaryDirectory Data_fromArrayBuffer
                           extract (url v) w)).
  { unfold checkVersion, versionsUrl, try_catch, call, mbind, V_bind.
    cbn [setLoading set_view host view]. rewrite Hcheck.
    cbn. unfold download. rewrite last_snoc_url.
    unfold try_catch, call, mbind, V_bind, mret, V_ret.
    cbn [setLoading set_view host view].
    destruct (downloadUpdate temporaryDirectory Data_fromArrayBuffer extract (url v) w)
      as [[e|listing] w']; reflexivity. }
  split; [exact Hhost |]. rewrite Hhost.
  apply downloadUpdate_calls.
Qed.

(** X22, witness: the manifest lists [1.0], [2.0], [1.5] and the version
    entered is [1.2]: the download asks for [1.5], not for [2.0]. *)
Lemma download_after_check_witness :
  let u := {| host := still_world None midnight (Responded manifest_ok);
              view := {| versions_shown := []; interval_chosen := Daily;
                         version_entered := "1.2"; cache_shown := None;
                         loading := false |};
              reported := []; presented := 0 |} in
  let checked := snd (checkVersion "app" utc Daily "1.2" u) in
  exists rest,
    calls (host (snd (download "/tmp" Some unpack_index
                        (versions_shown (view checked)) checked)))
    = (calls (host checked)
       ++ CallFetch "https://example.org/1.5.zip" :: rest)%list.
Proof.
  cbv zeta.
  set (u := {| host := still_world None midnight (Responded manifest_ok);
               view := {| versions_shown := []; interval_chosen := Daily;
                          version_entered := "1.2"; cache_shown := None;
                          loading := false |};
               reported := []; presented := 0 |}).
  set (w := snd (updateAvailable "app" utc "" Daily "1.2" (host u))).
  assert (Hcheck : updateAvailable "app" utc "" Daily "1.2" (host u)
                   = (inr ([release "2.0"] ++ [release "1.5"])%list, w))
    by (vm_compute; reflexivity).
  assert (Hhost : host (snd (checkVersion "app" utc Daily "1.2" u)) = w)
    by (vm_compute; reflexivity).
  rewrite Hhost.
  exact (proj2 (download_after_check "app" "/tmp" utc Some unpack_index Daily "1.2" u
                  [release "2.0"] (release "1.5") w Hcheck)).
Defined.

(** X23: a check whose refresh the storage refuses.  The view shows the newer
    versions of the manifest and reports no error, but the cache it shows is
    the record the storage held before the check: with no such record it
    stays empty, the state in which the view says that no check was ever
    made. *)
Theorem checkVersion_unwritable_storage (Script_name : string)
    (LocalTZA : Z -> bool -> Z) (interval : UpdateCheckInterval)
    (version : string) (u : Ui) (r : Response) (vs newer : list VersionData) :
  lastChecked (default defaultCache (storage (host u) !! storageKey Script_name))
    <= interval_date LocalTZA interval
         (clock (host u) (reading_index interval + clock_reads (host u))%nat) ->
  network (host u) "" = Responded r -> json r = Some vs ->
  storage_writable (host u) = false ->
  newer_result version vs = inr newer ->
  let run := checkVersion Script_name LocalTZA interval version u in
  versions_shown (view (snd run)) = newer /\
  cache_shown (view (snd run)) = storage (host u) !! storageKey Script_name /\
  reported (snd run) = reported u /\
  (storage (host u) !! storageKey Script_name = None ->
   cache_shown (view (snd run)) = None).
Proof.
  intros Hstale Hnet Hjson Hwr Hnewer. cbv zeta.
  assert (Hrun := updateAvailable_refreshes Script_name LocalTZA "" interval version
                    (host u) r vs Hstale Hnet Hjson).
  assert (Hshown : cache_shown (view (snd (checkVersion Script_name LocalTZA
                                             interval version u)))
                   = storage (host u) !! storageKey Script_name).
  { unfold checkVersion, versionsUrl, try_catch, call, mbind, V_bind.
    cbn [setLoading set_view host view]. rewrite Hrun, Hnewer.
    cbn. now rewrite Hwr. }
  split; [| split; [exact Hshown | split]].
  - unfold checkVersion, versionsUrl, try_catch, call, mbind, V_bind.
    cbn [setLoading set_view host view]. rewrite Hrun, Hnewer. reflexivity.
  - unfold checkVersion, versionsUrl, try_catch, call, mbind, V_bind.
    cbn [setLoading set_view host view]. rewrite Hrun, Hnewer. reflexivity.
  - intros Hnone. now rewrite Hshown.
Qed.

(** X23, witness: the first check of [app] over a storage that takes no
    writes. *)
Lemma checkVersion_unwritable_storage_witness :
  let u := opened (read_only (still_world None midnight (Responded manifest_ok))) in
  let run := checkVersion "app" utc EveryTime "1.2" u in
  versions_shown (view (snd run)) = [release "2.0"; release "1.5"] /\
  cache_shown (view (snd run)) = None.
Proof.
  cbv zeta.
  set (u := opened (read_only (still_world None midnight (Responded manifest_ok)))).
  assert (Hstale :
    lastChecked (default defaultCache (storage (host u) !! storageKey "app"))
    <= interval_date utc EveryTime
         (clock (host u) (reading_index EveryTime + clock_reads (host u))%nat))
    by (vm_compute; discriminate).
  assert (Hnewer : newer_result "1.2" [release "1.0"; release "2.0"; release "1.5"]
                   = inr [release "2.0"; release "1.5"])
    by (vm_compute; reflexivity).
  assert (Hnone : storage (host u) !! storageKey "app" = None)
    by (vm_compute; reflexivity).
  destruct (checkVersion_unwritable_storage "app" utc EveryTime "1.2" u manifest_ok
              [release "1.0"; release "2.0"; release "1.5"]
              [release "2.0"; release "1.5"]
              Hstale eq_refl eq_refl eq_refl Hnewer) as (Hv & _ & _ & Hc).
  split; [exact Hv | exact (Hc Hnone)].
Defined.
